(** * Orchestration gateway (Node backend): job lifecycle, worker delegation,
      audit trail and ownership checks.

    A shallow embedding of the gateway's JavaScript sources:
    - [src/db/postgres]            ([auditLog])
    - [src/models/*]               (Job, AnalysisResult, CleaningResult, User)
    - [src/services/analysisService.js], [src/services/cleaningService]
    - [src/routes/upload], [src/routes/analysis.js], [src/routes/cleaning],
      [src/routes/auth.js]

    Conventions of the embedding.
    - JSON data is a value of [JS.value]; objects are association lists in
      insertion order, the first binding of a key being the live one.  A
      string is the sequence of its UTF-8 bytes.
    - A Mongo collection is the list of its documents in natural order, each
      document as Mongoose stores it (cast to its schema, empty objects
      dropped); the Postgres table [audit_log] is the list of its rows in
      insertion order, each row by the parameters of its INSERT; the disk is
      the finite set of paths that exist.
    - Asynchronous functions are computations in a state-and-exception monad
      over the stores; every [await] on a store is one state update.  Mongo
      rejects a duplicate primary key and a value it cannot cast to the
      schema, Postgres rejects a payload that is not JSON; apart from that
      the stores never fail.
    - A delegation is run as one computation: what other requests do between
      two of its [await]s is composed by hand where a statement needs it.
    - The Python worker, the JWT library and bcrypt are parameters; the
      token [jwt_sign] returns is the one [jwt.sign] issues at the instant of
      the request at hand. *)

From stdpp Require Import base strings list gmap pretty.
From Stdlib Require Import ZArith Lia Ascii.

Set Warnings "-register-all".

(** ** Completions: a JavaScript evaluation returns or throws *)

Inductive completion (A : Type) : Type :=
| Normal (a : A)
| Throw (message : string).
Arguments Normal {A} a.
Arguments Throw {A} message.

(** ** JavaScript values as they come out of [JSON.parse] *)

Module JS.

(** [Num n] is the integer [n], below 10^21 in magnitude; every other number
  is a [Real], given by the text [String()] prints for it ([1.5], [1e+21]). *)
Inductive value : Type :=
| Undefined
| Null
| Bool (b : bool)
| Num (n : Z)
| Real (text : string)
| Str (s : string)
| Arr (items : list value)
| Obj (props : list (string * value)).

(** [!!v] *)
Definition truthy (v : value) : bool :=
match v with
| Undefined | Null => false
| Bool b => b
| Num n => negb (Z.eqb n 0)
| Real _ => true
| Str s => negb (bool_decide (s = ""))
| Arr _ | Obj _ => true
end.

(** [v == null] *)
Definition nullish (v : value) : bool :=
match v with
| Undefined | Null => true
| _ => false
end.

(** [a || b] *)
Definition or (a b : value) : value := if truthy a then a else b.

(** [a ?? b] *)
Definition coalesce (a b : value) : value := if nullish a then b else a.

Fixpoint lookup_prop (k : string) (props : list (string * value)) : value :=
match props with
| [] => Undefined
| (k', v) :: rest => if decide (k = k') then v else lookup_prop k rest
end.

(** Own data property [k] of a non-nullish [v]. *)
Definition prop (v : value) (k : string) : value :=
match v with
| Obj props => lookup_prop k props
| _ => Undefined
end.

Definition type_name (v : value) : string :=
match v with
| Null => "null"
| _ => "undefined"
end.

(** [v.k]: a TypeError on [undefined] and [null]. *)
Definition member (v : value) (k : string) : completion value :=
if nullish v
then Throw ("Cannot read properties of " +:+ type_name v +:+
            " (reading '" +:+ k +:+ "')")
else Normal (prop v k).

(** [v?.k] *)
Definition opt_member (v : value) (k : string) : value :=
if nullish v then Undefined else prop v k.

(** [v === 'lit'] *)
Definition is_string (v : value) (lit : string) : bool :=
match v with
| Str s => bool_decide (s = lit)
| _ => false
end.

(** [String(v)], as [new Error(v)] and template literals compute it. *)
Fixpoint to_string (v : value) : string :=
match v with
| Undefined => "undefined"
| Null => "null"
| Bool true => "true"
| Bool false => "false"
| Num n => pretty n
| Real text => text
| Str s => s
| Arr items =>
    (fix join (l : list value) : string :=
       match l with
       | [] => ""
       | x :: rest =>
           let sx := match x with
                     | Undefined | Null => ""
                     | _ => to_string x
                     end in
           match rest with
           | [] => sx
           | _ :: _ => sx +:+ "," +:+ join rest
           end
       end) items
| Obj _ => "[object Object]"
end.

(** A byte [10xxxxxx], which continues a UTF-8 sequence. *)
Definition continuation (c : ascii) : bool :=
(128 <=? nat_of_ascii c) && (nat_of_ascii c <? 192).

(** The code points of a string, each with the bytes that encode it. *)
Fixpoint code_points (s : string) : list string :=
match s with
| EmptyString => []
| String c rest =>
    let continued :=
      match rest with
      | String c' _ => continuation c'
      | EmptyString => false
      end in
    match code_points rest with
    | p :: ps =>
        if continued then String c p :: ps
        else String c EmptyString :: p :: ps
    | [] => [String c EmptyString]
    end
end.

Definition chars (s : string) : list value := Str <$> code_points s.

(** The elements [for (const r of v)] visits; [what] is the source text of
  the iterated expression, which V8 quotes in its TypeError. *)
Definition iterate (what : string) (v : value) : completion (list value) :=
match v with
| Arr items => Normal items
| Str s => Normal (chars s)
| _ => Throw (what +:+ " is not iterable")
end.

End JS.

(** ** What Mongoose does to a value on its way into a document *)

Module Mongoose.

(** The message of a [CastError].  Mongoose quotes the value as
  [util.inspect] prints it; that rendering is not reproduced here,
  [JS.to_string] stands in for it. *)
Definition CastError (path : string) (v : JS.value) : string :=
"Cast to string failed for value " +:+ JS.to_string v +:+
" at path " +:+ path.

(** [castString]: the cast of a [String] path.  Nullish values pass, numbers
  and booleans are printed, a document stands for its [_id], and arrays and
  other objects are refused. *)
Definition castString (path : string) (v : JS.value) : completion JS.value :=
match v with
| JS.Undefined | JS.Null | JS.Str _ => Normal v
| JS.Bool _ | JS.Num _ | JS.Real _ => Normal (JS.Str (JS.to_string v))
| JS.Obj props =>
    match JS.lookup_prop "_id" props with
    | JS.Str i => Normal (JS.Str i)
    | _ => Throw (CastError path v)
    end
| JS.Arr _ => Throw (CastError path v)
end.

(** A [String] path of a new document: a value that cannot be cast is left
  out, and so is [undefined]; the path then has its [default]. *)
Definition string_path (path : string) (default v : JS.value) : JS.value :=
match castString path v with
| Normal JS.Undefined | Throw _ => default
| Normal s => s
end.

(** An array path of a new document: [[]] by default, and a value that is
  not an array is wrapped in one. *)
Definition array_path (v : JS.value) : JS.value :=
match v with
| JS.Undefined => JS.Arr []
| JS.Null | JS.Arr _ => v
| _ => JS.Arr [v]
end.

(** The schema option [minimize], on by default: when a document is
  serialised, an object without keys is left out, and so is a key whose
  value was left out.  An element of an array stays, as [{}]. *)
Fixpoint minimize (v : JS.value) : JS.value :=
match v with
| JS.Obj props =>
    match (fix keep (l : list (string * JS.value)) : list (string * JS.value) :=
             match l with
             | [] => []
             | (k, x) :: rest =>
                 match minimize x with
                 | JS.Undefined => keep rest
                 | x' => (k, x') :: keep rest
                 end
             end) props with
    | [] => JS.Undefined
    | kept => JS.Obj kept
    end
| JS.Arr items =>
    JS.Arr ((fix each (l : list JS.value) : list JS.value :=
               match l with
               | [] => []
               | x :: rest =>
                   match minimize x with
                   | JS.Undefined =>
                       match x with
                       | JS.Obj _ => JS.Obj [] :: each rest
                       | _ => JS.Undefined :: each rest
                       end
                   | x' => x' :: each rest
                   end
               end) items)
| _ => v
end.

End Mongoose.

(** ** What Postgres does to the payload of an audit row *)

Module Pg.
Local Open Scope N_scope.

Definition is_ws (c : ascii) : bool :=
bool_decide (N_of_ascii c ∈ [32; 9; 10; 13]).

Definition is_digit (c : ascii) : bool :=
(48 <=? N_of_ascii c) && (N_of_ascii c <=? 57).

Definition hex_value (c : ascii) : option N :=
let n := N_of_ascii c in
if (48 <=? n) && (n <=? 57) then Some (n - 48)
else if (65 <=? n) && (n <=? 70) then Some (n - 55)
else if (97 <=? n) && (n <=? 102) then Some (n - 87)
else None.

(** A character that continues a number or a word. *)
Definition is_word (c : ascii) : bool :=
let n := N_of_ascii c in
is_digit c || ((65 <=? n) && (n <=? 90)) || ((97 <=? n) && (n <=? 122))
|| (n =? 95) || (128 <=? n).

Inductive token : Type :=
| LBrace | RBrace | LBracket | RBracket | Colon | Comma | Text | Scalar.

(** What follows the closing quote of a string; [high] says a high surrogate
  escape waits for its low one.  Control characters must be escaped, and
  [jsonb] has no [\u0000]. *)
Fixpoint lex_string (high : bool) (s : string) : option string :=
match s with
| EmptyString => None
| String c rest =>
    if bool_decide (N_of_ascii c = 34) then
      if high then None else Some rest
    else if bool_decide (N_of_ascii c = 92) then
      match rest with
      | String e rest' =>
          if bool_decide (N_of_ascii e = 117) then
            match rest' with
            | String h1 (String h2 (String h3 (String h4 rest''))) =>
                match hex_value h1, hex_value h2, hex_value h3, hex_value h4
                with
                | Some a, Some b, Some c, Some d =>
                    let v := ((a * 16 + b) * 16 + c) * 16 + d in
                    if v =? 0 then None
                    else if (55296 <=? v) && (v <=? 56319) then
                      if high then None else lex_string true rest''
                    else if (56320 <=? v) && (v <=? 57343) then
                      if high then lex_string false rest'' else None
                    else if high then None else lex_string false rest''
                | _, _, _, _ => None
                end
            | _ => None
            end
          else if bool_decide
                    (N_of_ascii e ∈ [34; 92; 47; 98; 102; 110; 114; 116])
          then if high then None else lex_string false rest'
          else None
      | EmptyString => None
      end
    else if N_of_ascii c <? 32 then None
    else if high then None
    else lex_string false rest
end.

Fixpoint skip_digits (s : string) : string :=
match s with
| String c rest => if is_digit c then skip_digits rest else s
| EmptyString => s
end.

Definition digits (s : string) : option string :=
match s with
| String c rest => if is_digit c then Some (skip_digits rest) else None
| EmptyString => None
end.

(** What follows a number: an optional sign, an integer part without a
  leading zero, an optional fraction and an optional exponent. *)
Definition lex_number (s : string) : option string :=
let unsigned :=
  match s with
  | String c rest => if bool_decide (N_of_ascii c = 45) then rest else s
  | EmptyString => s
  end in
let after_int :=
  match unsigned with
  | String c rest =>
      if bool_decide (N_of_ascii c = 48) then Some rest
      else if is_digit c then Some (skip_digits rest)
      else None
  | EmptyString => None
  end in
let after_frac :=
  match after_int with
  | Some (String c rest as r) =>
      if bool_decide (N_of_ascii c = 46) then digits rest else Some r
  | other => other
  end in
let after_exp :=
  match after_frac with
  | Some (String c rest as r) =>
      if bool_decide (N_of_ascii c ∈ [101; 69]) then
        match rest with
        | String sign rest' =>
            if bool_decide (N_of_ascii sign ∈ [43; 45]) then digits rest'
            else digits rest
        | EmptyString => None
        end
      else Some r
  | other => other
  end in
match after_exp with
| Some (String c _ as r) => if is_word c then None else Some r
| other => other
end.

(** What follows the word [w] when [s] starts with it. *)
Fixpoint lex_word (w s : string) : option string :=
match w, s with
| EmptyString, String c _ => if is_word c then None else Some s
| EmptyString, EmptyString => Some s
| String a w', String c s' =>
    if bool_decide (a = c) then lex_word w' s' else None
| String _ _, EmptyString => None
end.

Fixpoint lex (fuel : nat) (s : string) : option (list token) :=
match fuel, s with
| _, EmptyString => Some []
| O, _ => None
| S fuel, String c rest =>
    let n := N_of_ascii c in
    let one (t : token) := cons t <$> lex fuel rest in
    let more (t : token) (r : option string) :=
      match r with
      | Some rest' => cons t <$> lex fuel rest'
      | None => None
      end in
    if is_ws c then lex fuel rest
    else if n =? 123 then one LBrace
    else if n =? 125 then one RBrace
    else if n =? 91 then one LBracket
    else if n =? 93 then one RBracket
    else if n =? 58 then one Colon
    else if n =? 44 then one Comma
    else if n =? 34 then more Text (lex_string false rest)
    else if (n =? 45) || is_digit c then more Scalar (lex_number s)
    else if n =? 116 then more Scalar (lex_word "true" s)
    else if n =? 102 then more Scalar (lex_word "false" s)
    else if n =? 110 then more Scalar (lex_word "null" s)
    else None
end.

(** The tokens that follow one JSON value. *)
Fixpoint value (fuel : nat) (ts : list token) : option (list token) :=
match fuel with
| O => None
| S fuel =>
    match ts with
    | Text :: rest | Scalar :: rest => Some rest
    | LBrace :: RBrace :: rest => Some rest
    | LBrace :: rest =>
        (fix members (n : nat) (ts : list token) : option (list token) :=
           match n, ts with
           | S n, Text :: Colon :: rest =>
               match value fuel rest with
               | Some (Comma :: rest') => members n rest'
               | Some (RBrace :: rest') => Some rest'
               | _ => None
               end
           | _, _ => None
           end) fuel rest
    | LBracket :: RBracket :: rest => Some rest
    | LBracket :: rest =>
        (fix elements (n : nat) (ts : list token) : option (list token) :=
           match n with
           | S n =>
               match value fuel ts with
               | Some (Comma :: rest') => elements n rest'
               | Some (RBracket :: rest') => Some rest'
               | _ => None
               end
           | O => None
           end) fuel rest
    | _ => None
    end
end.

(** Whether the text is one JSON value, as the input function of [jsonb]
  reads it. *)
Definition json_text (s : string) : bool :=
match lex (String.length s) s with
| Some ts =>
    match value (S (length ts)) ts with
    | Some [] => true
    | _ => false
    end
| None => false
end.

(** Whether the INSERT takes the parameter.  node-postgres sends an object as
  its JSON text, a string as it is, a number or a boolean as its text,
  [null] as NULL, and an array as an array literal, which is JSON only when
  it is the empty [{}].  The JSON text of an object is taken to be accepted:
  the strings in it are taken to hold no NUL character, the one [jsonb]
  refuses in a text that [JSON.stringify] wrote. *)
Definition jsonb_in (payload : JS.value) : bool :=
match payload with
| JS.Undefined | JS.Null | JS.Bool _ | JS.Num _ | JS.Obj _ => true
| JS.Real text => json_text text
| JS.Str s => json_text s
| JS.Arr items => bool_decide (items = [])
end.

(** The message Postgres rejects the INSERT with. *)
Definition invalid_json : string := "invalid input syntax for type json".

End Pg.

(** ** Mongoose models *)

(** The query operations the gateway uses, over a collection whose documents
    are matched on one string field [key]. *)
Section Model.
Context {Doc : Type} (key : Doc → string).

(** [Model.find({ key: { $in: ks } })] *)
Definition find_in (ks : list string) (c : list Doc) : list Doc :=
  filter (λ d, key d ∈ ks) c.

(** [Model.findOne({ key: k })] *)
Definition findOne (k : string) (c : list Doc) : option Doc :=
  head (filter (λ d, key d = k) c).

(** [Model.updateOne({ key: k }, update)]: the first match only. *)
Fixpoint updateOne (k : string) (update : Doc → Doc) (c : list Doc)
  : list Doc :=
  match c with
  | [] => []
  | d :: rest =>
      if decide (key d = k) then update d :: rest
      else d :: updateOne k update rest
  end.

(** [Model.replaceOne({ key: k }, doc, { upsert: true })] *)
Definition replaceOne_upsert (k : string) (doc : Doc) (c : list Doc)
  : list Doc :=
  match findOne k c with
  | Some _ => updateOne k (λ _, doc) c
  | None => c ++ [doc]
  end.

(** [Model.deleteMany({ key: { $in: ks } })] *)
Definition deleteMany_in (ks : list string) (c : list Doc) : list Doc :=
  filter (λ d, key d ∉ ks) c.

(** The unique index on [key]. *)
Definition unique (c : list Doc) : Prop := NoDup (key <$> c).

(** Number of live documents for [k]. *)
Definition count (k : string) (c : list Doc) : nat :=
  length (filter (λ d, key d = k) c).
End Model.

Module Job.
(** [JobSchema] *)
Record t : Type := mk {
  _id : string;
  status : string;
  mode : string;
  user_id : string;
  file_name : string;
  file_path : JS.value;
  cleaned_file_path : JS.value;
}.

Definition set_status (st : string) (j : t) : t :=
  mk (_id j) st (mode j) (user_id j) (file_name j) (file_path j)
     (cleaned_file_path j).

(** [$set: { cleaned_file_path: path, status: st }]: a key whose value is
    [undefined] is dropped from the update, so the stored path stays. *)
Definition set_cleaned (path : JS.value) (st : string) (j : t) : t :=
  mk (_id j) st (mode j) (user_id j) (file_name j) (file_path j)
     (match path with
      | JS.Undefined => cleaned_file_path j
      | _ => path
      end).

Definition findById : string → list t → option t := findOne _id.
End Job.

Module AnalysisResult.
(** [AnalysisSchema] *)
Record t : Type := mk {
  job_id : string;
  result : JS.value;
  analysis_type : JS.value;
}.

(** The document Mongoose writes for [{ job_id, result, analysis_type }]:
    [result] is [Mixed], [analysis_type] a [String] without default. *)
Definition stored (doc : t) : t :=
  mk (job_id doc)
     (Mongoose.minimize (result doc))
     (Mongoose.string_path "analysis_type" JS.Undefined (analysis_type doc)).
End AnalysisResult.

Module CleaningResult.
(** [CleaningSchema] *)
Record t : Type := mk {
  job_id : string;
  mode : JS.value;
  rules_applied : JS.value;
  summary : JS.value;
}.

(** The document Mongoose writes for [{ job_id, mode, rules_applied,
    summary }]: [mode] is a [String] with default ['auto'], [rules_applied]
    an array of [Mixed], [summary] is [Mixed]. *)
Definition stored (doc : t) : t :=
  mk (job_id doc)
     (Mongoose.string_path "mode" (JS.Str "auto") (mode doc))
     (Mongoose.minimize (Mongoose.array_path (rules_applied doc)))
     (Mongoose.minimize (summary doc)).
End CleaningResult.

Module User.
(** [UserSchema] *)
Record t : Type := mk {
  _id : string;
  email : string;
  password_hash : string;
  role : string;
}.
End User.

(** A row of the [audit_log] table. *)
Module AuditEvent.
Record t : Type := mk {
  job_id : string;
  event_type : string;
  payload : JS.value;
}.
End AuditEvent.

(** ** The stores *)

Record db : Type := mkdb {
  jobs : list Job.t;
  analysis_results : list AnalysisResult.t;
  cleaning_results : list CleaningResult.t;
  users : list User.t;
  audit_log : list AuditEvent.t;
  disk : gset string;
}.

Definition with_jobs (f : list Job.t → list Job.t) (s : db) : db :=
  mkdb (f (jobs s)) (analysis_results s) (cleaning_results s) (users s)
       (audit_log s) (disk s).

Definition with_analysis_results
    (f : list AnalysisResult.t → list AnalysisResult.t) (s : db) : db :=
  mkdb (jobs s) (f (analysis_results s)) (cleaning_results s) (users s)
       (audit_log s) (disk s).

Definition with_cleaning_results
    (f : list CleaningResult.t → list CleaningResult.t) (s : db) : db :=
  mkdb (jobs s) (analysis_results s) (f (cleaning_results s)) (users s)
       (audit_log s) (disk s).

Definition with_audit_log
    (f : list AuditEvent.t → list AuditEvent.t) (s : db) : db :=
  mkdb (jobs s) (analysis_results s) (cleaning_results s) (users s)
       (f (audit_log s)) (disk s).

Definition with_disk (f : gset string → gset string) (s : db) : db :=
  mkdb (jobs s) (analysis_results s) (cleaning_results s) (users s)
       (audit_log s) (f (disk s)).

(** ** Asynchronous computations over the stores *)

Definition M (A : Type) : Type := db → completion A * db.

Definition ret {A} (a : A) : M A := λ s, (Normal a, s).

Definition bind {A B} (m : M A) (k : A → M B) : M B :=
  λ s, match m s with
       | (Normal a, s') => k a s'
       | (Throw e, s') => (Throw e, s')
       end.

(** [throw new Error(message)] *)
Definition throw {A} (message : string) : M A := λ s, (Throw message, s).

(** [try { body } catch (err) { handler(err.message) }] *)
Definition try_catch {A} (body : M A) (handler : string → M A) : M A :=
  λ s, match body s with
       | (Normal a, s') => (Normal a, s')
       | (Throw e, s') => handler e s'
       end.

(** A synchronous evaluation inside an asynchronous function. *)
Definition lift {A} (c : completion A) : M A := λ s, (c, s).

Definition read {A} (f : db → A) : M A := λ s, (Normal (f s), s).

Definition write (f : db → db) : M unit := λ s, (Normal tt, f s).

Notation "x <- m ;; k" := (bind m (λ x, k))
  (at level 100, m at next level, right associativity,
   format "'[v' x  <-  m  ;;  '/' k ']'").
Notation "m ;;; k" := (bind m (λ _, k))
  (at level 100, right associativity,
   format "'[v' m  ;;;  '/' k ']'").

(** [for (const x of l) await body(x)] *)
Fixpoint for_of {A} (l : list A) (body : A → M unit) : M unit :=
  match l with
  | [] => ret tt
  | x :: rest => body x ;;; for_of rest body
  end.

(** ** [db/postgres]: the audit trail *)

(** The default of the parameter [payload = {}]. *)
Definition default_payload (payload : JS.value) : JS.value :=
  match payload with
  | JS.Undefined => JS.Obj []
  | _ => payload
  end.

(** [auditLog(jobId, eventType, payload = {})]: one INSERT, which Postgres
    rejects when the payload is not JSON. *)
Definition auditLog (jobId eventType : string) (payload : JS.value) : M unit :=
  if Pg.jsonb_in (default_payload payload)
  then write (with_audit_log
                (λ log, log ++ [AuditEvent.mk jobId eventType
                                              (default_payload payload)]))
  else throw Pg.invalid_json.

(** ** Store accesses as asynchronous calls *)

Definition Job_findById (jobId : string) : M (option Job.t) :=
  read (λ s, Job.findById jobId (jobs s)).

Definition Job_updateOne (jobId : string) (update : Job.t → Job.t) : M unit :=
  write (with_jobs (updateOne Job._id jobId update)).

(** [Job.updateOne({ _id }, { $set: { cleaned_file_path, status } })]: the
    path is cast to the schema's [String] before the update is sent. *)
Definition Job_set_cleaned (jobId : string) (path : JS.value) (st : string)
  : M unit :=
  match Mongoose.castString "cleaned_file_path" path with
  | Throw message => throw message
  | Normal cast => Job_updateOne jobId (Job.set_cleaned cast st)
  end.

(** [Job.create(doc)]: Mongo rejects a second document with the same [_id]. *)
Definition Job_create (doc : Job.t) : M unit :=
  existing <- Job_findById (Job._id doc) ;;
  match existing with
  | Some _ => throw "E11000 duplicate key error collection: jobs index: _id_"
  | None => write (with_jobs (λ c, c ++ [doc]))
  end.

Definition AnalysisResult_findOne (jobId : string)
  : M (option AnalysisResult.t) :=
  read (λ s, findOne AnalysisResult.job_id jobId (analysis_results s)).

Definition AnalysisResult_replaceOne (jobId : string) (doc : AnalysisResult.t)
  : M unit :=
  write (with_analysis_results
           (replaceOne_upsert AnalysisResult.job_id jobId
                              (AnalysisResult.stored doc))).

Definition CleaningResult_findOne (jobId : string)
  : M (option CleaningResult.t) :=
  read (λ s, findOne CleaningResult.job_id jobId (cleaning_results s)).

Definition CleaningResult_replaceOne (jobId : string) (doc : CleaningResult.t)
  : M unit :=
  write (with_cleaning_results
           (replaceOne_upsert CleaningResult.job_id jobId
                              (CleaningResult.stored doc))).

(** ** The worker seen through [fetch] *)

Inductive body : Type :=
| Json (data : JS.value)          (* [response.json()] resolves *)
| NotJson (message : string).     (* [response.json()] rejects *)

(** What becomes of a request to the worker, with the time it takes: nothing
    ever comes back; the call breaks after some milliseconds, because the
    connection does or because the HTTP client gives it up by a limit of its
    own; or the response headers arrive after [headers_ms] and the body
    [body_ms] later. *)
Inductive exchange : Type :=
| Silent
| Broken (after_ms : Z) (message : string)
| Replied (headers_ms : Z) (status : Z) (body_ms : Z) (b : body).

(** What [await fetch(url, { signal })] and the response it resolves with
    give. *)
Inductive fetch_outcome : Type :=
| Aborted                          (* the timer fired: [controller.abort()] *)
| Failed (message : string)        (* connection refused and the like *)
| Responded (status : Z) (b : body).

(** [setTimeout(() => controller.abort(), timeout_ms)] around the [fetch],
    cleared in the [finally] once [fetch] has settled, which it does when the
    headers are there: the timer does not cover the body. *)
Definition fetch (timeout_ms : Z) (x : exchange) : fetch_outcome :=
  match x with
  | Silent => Aborted
  | Broken after_ms message =>
      if (timeout_ms <=? after_ms)%Z then Aborted else Failed message
  | Replied headers_ms status _ b =>
      if (timeout_ms <=? headers_ms)%Z then Aborted else Responded status b
  end.

Definition ANALYSIS_TIMEOUT_MS : Z := 10 * 60 * 1000.
Definition CLEANING_TIMEOUT_MS : Z := 10 * 60 * 1000.

(** The message of the error [fetch] rejects with once its signal aborts. *)
Definition abort_message : string := "This operation was aborted".

(** [response.ok] *)
Definition ok (status : Z) : bool := (200 <=? status)%Z && (status <=? 299)%Z.

(** Options of a cleaning request: [{ mode, rules }]. *)
Record cleaningOptions : Type := mkopts {
  opt_mode : JS.value;
  opt_rules : JS.value;
}.

Section Services.
(** [process.env.PYTHON_SERVICE_URL || 'http://127.0.0.1:8000'] *)
Variable PYTHON_URL : string.
(** What the worker does with a POST of [body] to [url]. *)
Variable worker : string → JS.value → exchange.

(** [await fetch(url, { method: 'POST', body, signal })] under the timer,
    followed by the [response.ok] test and [await response.json()]. *)
Definition post_json (timeout_ms : Z) (url : string) (request : JS.value)
  : M JS.value :=
  match fetch timeout_ms (worker url request) with
  | Aborted => throw abort_message
  | Failed message => throw message
  | Responded status b =>
      if negb (ok status)
      then throw ("Python service returned HTTP " +:+ pretty status)
      else match b with
           | Json data => ret data
           | NotJson message => throw message
           end
  end.

(** *** [services/analysisService.js] *)

Definition analysis_request (jobId : string) (job : Job.t) : JS.value :=
  JS.Obj [("job_id", JS.Str jobId);
          ("file_path", Job.file_path job);
          ("mode", JS.or (JS.Str (Job.mode job)) (JS.Str "normal"));
          ("options", JS.Obj [])].

(** Lines 25-72: the body of the [try]. *)
Definition runAnalysis_try (jobId : string) (job : Job.t) : M unit :=
  data <- post_json ANALYSIS_TIMEOUT_MS (PYTHON_URL +:+ "/internal/analyze")
                    (analysis_request jobId job) ;;
  status <- lift (JS.member data "status") ;;
  if JS.is_string status "failed"
  then throw (JS.to_string (JS.or (JS.prop data "error")
                                  (JS.Str "Python analysis failed")))
  else
    let result := JS.prop data "result" in
    let meta := JS.opt_member result "meta" in
    AnalysisResult_replaceOne jobId
      (AnalysisResult.mk jobId result
         (JS.or (JS.opt_member meta "analysis_type") (JS.Str "in-memory"))) ;;;
    Job_updateOne jobId (Job.set_status "completed") ;;;
    auditLog jobId "ANALYSIS_COMPLETED"
      (JS.Obj [("analysis_type", JS.opt_member meta "analysis_type");
               ("duration_ms", JS.opt_member meta "duration_ms")]).

(** Lines 73-77: the [catch]. *)
Definition runAnalysis_catch (jobId : string) (err : string) : M unit :=
  Job_updateOne jobId (Job.set_status "failed") ;;;
  auditLog jobId "ANALYSIS_FAILED" (JS.Obj [("error", JS.Str err)]) ;;;
  throw err.

(** Lines 18-22: look the job up, mark it running, log the start. *)
Definition runAnalysis_begin (jobId : string) : M Job.t :=
  job <- Job_findById jobId ;;
  match job with
  | None => throw "Job/file not found"
  | Some job =>
      if negb (JS.truthy (Job.file_path job))
      then throw "Job/file not found"
      else
        Job_updateOne jobId (Job.set_status "running") ;;;
        auditLog jobId "ANALYSIS_STARTED" (JS.Obj []) ;;;
        ret job
  end.

Definition runAnalysis (jobId : string) : M unit :=
  job <- runAnalysis_begin jobId ;;
  try_catch (runAnalysis_try jobId job) (runAnalysis_catch jobId).

(** *** [services/cleaningService] *)

Definition cleaning_request (jobId : string) (job : Job.t)
    (opts : cleaningOptions) : JS.value :=
  JS.Obj [("job_id", JS.Str jobId);
          ("file_path", Job.file_path job);
          ("mode", JS.or (opt_mode opts) (JS.Str "auto"));
          ("rules", JS.or (opt_rules opts) (JS.Obj []));
          ("options", JS.Obj [])].

(** Lines 30-86: the body of the [try]. *)
Definition runCleaning_try (jobId : string) (job : Job.t)
    (opts : cleaningOptions) : M unit :=
  data <- post_json CLEANING_TIMEOUT_MS (PYTHON_URL +:+ "/internal/clean")
                    (cleaning_request jobId job opts) ;;
  status <- lift (JS.member data "status") ;;
  if JS.is_string status "failed"
  then throw (JS.to_string (JS.or (JS.prop data "error")
                                  (JS.Str "Python cleaning failed")))
  else
    CleaningResult_replaceOne jobId
      (CleaningResult.mk jobId
         (JS.or (JS.prop data "mode")
                (JS.or (opt_mode opts) (JS.Str "auto")))
         (JS.prop data "rules_applied")
         (JS.prop data "summary")) ;;;
    Job_set_cleaned jobId (JS.prop data "cleaned_file_path") "cleaned" ;;;
    rules <- lift (JS.iterate "data.rules_applied"
                              (JS.prop data "rules_applied")) ;;
    for_of rules (λ r, auditLog jobId "RULE_APPLIED" r) ;;;
    rows_removed <- lift (JS.member (JS.prop data "summary") "rows_removed") ;;
    auditLog jobId "CLEANING_COMPLETED"
      (JS.Obj [("cleaned_file_path", JS.prop data "cleaned_file_path");
               ("rows_removed", rows_removed)]).

(** Lines 87-91: the [catch]. *)
Definition runCleaning_catch (jobId : string) (err : string) : M unit :=
  Job_updateOne jobId (Job.set_status "completed") ;;;
  auditLog jobId "ERROR"
    (JS.Obj [("phase", JS.Str "cleaning"); ("error", JS.Str err)]) ;;;
  throw err.

(** Lines 23-27. *)
Definition runCleaning_begin (jobId : string) (opts : cleaningOptions)
  : M Job.t :=
  job <- Job_findById jobId ;;
  match job with
  | None => throw "Job/file not found"
  | Some job =>
      if negb (JS.truthy (Job.file_path job))
      then throw "Job/file not found"
      else
        Job_updateOne jobId (Job.set_status "cleaning") ;;;
        auditLog jobId "CLEANING_STARTED"
          (JS.Obj [("mode", opt_mode opts)]) ;;;
        ret job
  end.

Definition runCleaning (jobId : string) (opts : cleaningOptions) : M unit :=
  job <- runCleaning_begin jobId opts ;;
  try_catch (runCleaning_try jobId job opts) (runCleaning_catch jobId).
End Services.

(** ** HTTP plumbing *)

Inductive content : Type :=
| JsonBody (v : JS.value)          (* [res.json(v)] *)
| FileStream (path : string).      (* [fs.createReadStream(path).pipe(res)] *)

Record response : Type := mkres {
  code : Z;
  headers : list (string * string);
  sent : content;
}.

(** [res.status(code).json(v)] *)
Definition json (code : Z) (v : JS.value) : response :=
  mkres code [] (JsonBody v).

(** [req.user], as the [auth] middleware attaches it. *)
Record req_user : Type := mkuser {
  id : string;
  role : string;
}.

(** A delegation started without [await]: it runs after the handler. *)
Inductive task : Type :=
| AnalysisTask (jobId : string)
| CleaningTask (jobId : string) (opts : cleaningOptions).

(** What a handler leaves behind: the response and the task it spawned. *)
Definition reply : Type := response * option task.

Definition respond (r : response) : M reply := ret (r, None).

(** The [catch (err) { next(err) }] of every handler, ending in the
    application's error middleware. *)
Definition route (handler : M reply) (s : db) : reply * db :=
  match handler s with
  | (Normal r, s') => (r, s')
  | (Throw e, s') =>
      ((json 500 (JS.Obj [("error", JS.Str "Internal server error");
                          ("details", JS.Str e)]), None), s')
  end.

Definition dquote : string := String (Ascii.ascii_of_nat 34) EmptyString.

(** [fs.existsSync(p)] *)
Definition existsSync (p : JS.value) (d : gset string) : bool :=
  match p with
  | JS.Str f => bool_decide (f ∈ d)
  | _ => false
  end.

(** [if (p) { try { fs.unlinkSync(p); } catch {} }] *)
Definition unlink_if_set (p : JS.value) : M unit :=
  if JS.truthy p
  then match p with
       | JS.Str f => write (with_disk (λ d, d ∖ {[f]}))
       | _ => ret tt
       end
  else ret tt.

(** ** [routes/analysis.js] and [routes/cleaning]: ownership *)

(** Find a job by id and verify ownership: admins reach any job, other
    subjects only their own. *)
Definition findOwnedJob (jobId : string) (user : req_user)
  : M (option Job.t) :=
  job <- Job_findById jobId ;;
  match job with
  | None => ret None
  | Some job =>
      if decide (role user = "admin") then ret (Some job)
      else if decide (Job.user_id job ≠ id user) then ret None
      else ret (Some job)
  end.

(** ** [routes/upload] *)

(** [req.file], once multer has written the upload to [path]. *)
Record uploaded_file : Type := mkfile {
  originalname : string;
  path : string;
  size : Z;
}.

(** [upload.single('file')] with disk storage. *)
Definition multer_single (file : option uploaded_file) : M unit :=
  match file with
  | None => ret tt
  | Some f => write (with_disk (λ d, d ∪ {[path f]}))
  end.

(** POST /upload; [jobId] is the fresh [uuid()]. *)
Definition post_upload (jobId : string) (user : req_user)
    (file : option uploaded_file) : M reply :=
  multer_single file ;;;
  match file with
  | None => respond (json 400 (JS.Obj [("error", JS.Str "No file uploaded")]))
  | Some file =>
      let filePath := path file in
      let mode := if (size file >? 50 * 1024 * 1024)%Z
                  then "large" else "normal" in
      Job_create (Job.mk jobId "starting" mode (id user) (originalname file)
                         (JS.Str filePath) JS.Undefined) ;;;
      auditLog jobId "JOB_CREATED" (JS.Obj [("user_id", JS.Str (id user))]) ;;;
      auditLog jobId "FILE_UPLOADED"
        (JS.Obj [("fileName", JS.Str (originalname file));
                 ("size", JS.Num (size file));
                 ("mode", JS.Str mode)]) ;;;
      respond (json 200 (JS.Obj [("job_id", JS.Str jobId)]))
  end.

(** ** [routes/analysis.js] *)

(** POST /analyze/:jobId.  The handler calls [runAnalysis(jobId)] without
    awaiting it and goes on to log the enqueued event; the delegation is
    returned as the task the handler spawned. *)
Definition post_analyze (jobId : string) (user : req_user) : M reply :=
  job <- findOwnedJob jobId user ;;
  match job with
  | None =>
      respond (json 404 (JS.Obj [("detail",
                 JS.Str "No uploaded file found for this job.")]))
  | Some _ =>
      auditLog jobId "ANALYSIS_ENQUEUED" (JS.Obj []) ;;;
      ret (json 200 (JS.Obj [("message", JS.Str "analysis started")]),
           Some (AnalysisTask jobId))
  end.

(** GET /status/:jobId *)
Definition get_status (jobId : string) (user : req_user) : M reply :=
  job <- findOwnedJob jobId user ;;
  let status := match job with
                | Some job => Job.status job
                | None => "unknown"
                end in
  respond (json 200 (JS.Obj [("status", JS.Str status)])).

Definition results_not_found : response :=
  json 404 (JS.Obj [("detail", JS.Str "Results not found")]).

(** [!analysis || !analysis.result] *)
Definition live_result (analysis : option AnalysisResult.t) : option JS.value :=
  match analysis with
  | None => None
  | Some a => if JS.truthy (AnalysisResult.result a)
              then Some (AnalysisResult.result a) else None
  end.

(** GET /results/:jobId *)
Definition get_results (jobId : string) (user : req_user) : M reply :=
  job <- findOwnedJob jobId user ;;
  match job with
  | None => respond results_not_found
  | Some _ =>
      analysis <- AnalysisResult_findOne jobId ;;
      match live_result analysis with
      | None => respond results_not_found
      | Some result =>
          respond (json 200
            (JS.Obj [("cleaned_data", JS.prop result "cleaned_data");
                     ("quality_report", JS.prop result "quality_report")]))
      end
  end.

(** The export report of GET /results/:jobId/export. *)
Definition exportReport (jobId : string) (data : JS.value) : JS.value :=
  let meta := JS.or (JS.prop data "meta") (JS.Obj []) in
  let qr := JS.or (JS.prop data "quality_report") (JS.Obj []) in
  let cleaned := JS.or (JS.prop data "cleaned_data") (JS.Obj []) in
  JS.Obj
    [("meta", JS.Obj
        [("job_id", JS.Str jobId);
         ("file_path", JS.or (JS.prop meta "file_path") JS.Null);
         ("file_size_bytes", JS.or (JS.prop meta "file_size_bytes") JS.Null);
         ("mode", JS.or (JS.prop meta "mode") (JS.Str "normal"));
         ("analysis_type",
            JS.or (JS.prop meta "analysis_type") (JS.Str "in-memory"));
         ("started_at", JS.or (JS.prop meta "started_at") JS.Null);
         ("completed_at", JS.or (JS.prop meta "completed_at") JS.Null);
         ("duration_ms", JS.or (JS.prop meta "duration_ms") JS.Null);
         ("version", JS.Str "1.0")]);
     ("dataset_summary", JS.Obj
        [("rows", JS.or (JS.prop cleaned "rows") (JS.Num 0));
         ("columns", JS.or (JS.prop cleaned "columns") (JS.Num 0))]);
     ("quality_overview", JS.Obj
        [("missing_rate", JS.coalesce (JS.prop qr "missing_rate") JS.Null);
         ("duplicate_rate", JS.coalesce (JS.prop qr "duplicate_rate") JS.Null);
         ("error_rate", JS.coalesce (JS.prop qr "outlier_rate") JS.Null)]);
     ("column_analysis", JS.or (JS.prop qr "column_analysis") (JS.Obj []));
     ("limitations", JS.Obj
        [("approximate_metrics", JS.Bool false);
         ("skipped_checks", JS.Arr [])])].

(** GET /results/:jobId/export *)
Definition get_results_export (jobId : string) (user : req_user) : M reply :=
  job <- findOwnedJob jobId user ;;
  match job with
  | None => respond results_not_found
  | Some _ =>
      analysis <- AnalysisResult_findOne jobId ;;
      match live_result analysis with
      | None => respond results_not_found
      | Some data => respond (json 200 (exportReport jobId data))
      end
  end.

(** [Job.find(filter)] of DELETE /jobs. *)
Definition deletable (user : req_user) (job_ids : list string) (j : Job.t)
  : Prop :=
  if decide (role user = "admin") then Job._id j ∈ job_ids
  else Job._id j ∈ job_ids ∧ Job.user_id j = id user.

Global Instance deletable_dec user job_ids j
  : Decision (deletable user job_ids j).
Proof. unfold deletable. destruct (decide (role user = "admin")); apply _. Defined.

(** DELETE /jobs; [job_ids] is [None] when the body holds no array. *)
Definition delete_jobs (user : req_user) (job_ids : option (list string))
  : M reply :=
  match job_ids with
  | None | Some [] =>
      respond (json 400 (JS.Obj [("error", JS.Str "job_ids array is required")]))
  | Some job_ids =>
      found <- read (λ s, filter (deletable user job_ids) (jobs s)) ;;
      let ownedIds := Job._id <$> found in
      match ownedIds with
      | [] =>
          respond (json 404 (JS.Obj [("error", JS.Str "No matching jobs found")]))
      | _ :: _ =>
          for_of found (λ job,
            unlink_if_set (Job.file_path job) ;;;
            unlink_if_set (Job.cleaned_file_path job)) ;;;
          write (with_jobs (deleteMany_in Job._id ownedIds)) ;;;
          write (with_analysis_results
                   (deleteMany_in AnalysisResult.job_id ownedIds)) ;;;
          write (with_cleaning_results
                   (deleteMany_in CleaningResult.job_id ownedIds)) ;;;
          for_of ownedIds (λ jobId,
            auditLog jobId "JOB_DELETED"
              (JS.Obj [("deleted_by", JS.Str (id user))])) ;;;
          respond (json 200
            (JS.Obj [("deleted", JS.Num (Z.of_nat (length ownedIds)));
                     ("job_ids", JS.Arr (JS.Str <$> ownedIds))]))
      end
  end.

(** ** [routes/cleaning] *)

(** POST /clean/:jobId with request body [body]; [runCleaning] is spawned
    the way POST /analyze spawns [runAnalysis]. *)
Definition post_clean (jobId : string) (user : req_user) (body : JS.value)
  : M reply :=
  job <- findOwnedJob jobId user ;;
  match job with
  | None => respond (json 404 (JS.Obj [("error", JS.Str "Job not found")]))
  | Some _ =>
      let b := JS.or body (JS.Obj []) in
      let opts := mkopts (JS.or (JS.prop b "mode") (JS.Str "auto"))
                         (JS.or (JS.prop b "rules") (JS.Obj [])) in
      auditLog jobId "CLEANING_ENQUEUED" (JS.Obj [("mode", opt_mode opts)]) ;;;
      ret (json 200 (JS.Obj [("job_id", JS.Str jobId);
                             ("status", JS.Str "cleaning_started")]),
           Some (CleaningTask jobId opts))
  end.

(** [!job || !job.cleaned_file_path] *)
Definition cleaned_path (job : option Job.t) : option JS.value :=
  match job with
  | None => None
  | Some j => if JS.truthy (Job.cleaned_file_path j)
              then Some (Job.cleaned_file_path j) else None
  end.

(** GET /cleaned/:jobId *)
Definition get_cleaned (jobId : string) (user : req_user) : M reply :=
  job <- findOwnedJob jobId user ;;
  match cleaned_path job with
  | None =>
      respond (json 404 (JS.Obj [("error", JS.Str "Cleaned file not found")]))
  | Some p =>
      present <- read (λ s, existsSync p (disk s)) ;;
      if negb present
      then respond (json 404 (JS.Obj [("error", JS.Str "File missing on disk")]))
      else
        respond (mkres 200
          [("Content-Type", "text/csv");
           ("Content-Disposition",
            "attachment; filename=" +:+ dquote +:+ jobId +:+ "-cleaned.csv"
            +:+ dquote)]
          (FileStream (JS.to_string p)))
  end.

(** The JSON of a [CleaningResult] document: the paths the gateway writes,
    without the [_id] and the timestamps Mongo and the schema add. *)
Definition CleaningResult_json (r : CleaningResult.t) : JS.value :=
  JS.Obj [("job_id", JS.Str (CleaningResult.job_id r));
          ("mode", CleaningResult.mode r);
          ("rules_applied", CleaningResult.rules_applied r);
          ("summary", CleaningResult.summary r)].

(** GET /cleaning-result/:jobId *)
Definition get_cleaning_result (jobId : string) (user : req_user) : M reply :=
  job <- findOwnedJob jobId user ;;
  match job with
  | None => respond (json 404 (JS.Obj [("error", JS.Str "Not found")]))
  | Some _ =>
      result <- CleaningResult_findOne jobId ;;
      match result with
      | None => respond (json 404 (JS.Obj [("error", JS.Str "Not found")]))
      | Some r => respond (json 200 (CleaningResult_json r))
      end
  end.

(** ** [routes/auth.js]: login *)

(** The strings among the elements of an array filter, each element cast to
    the path's [String]; a nullish element matches no stored email. *)
Fixpoint cast_elements (path : string) (items : list JS.value)
  : completion (list string) :=
  match items with
  | [] => Normal []
  | x :: rest =>
      match Mongoose.castString path x with
      | Throw message => Throw message
      | Normal x' =>
          match cast_elements path rest with
          | Throw message => Throw message
          | Normal rest' =>
              Normal (match x' with JS.Str e => e :: rest' | _ => rest' end)
          end
      end
  end.

(** A key that names a query operator. *)
Definition is_operator (k : string) : bool :=
  match k with
  | String c _ => bool_decide (c = "$"%char)
  | EmptyString => false
  end.

(** [User.findOne({ email })], which Mongoose casts to the schema before it
    queries: a string, number or boolean is matched as a string and an array
    as [$in] over its elements.  An object that carries query operators
    ([$ne], [$gt], ...) is not given a meaning here: the query is rejected. *)
Definition User_findOne_email (email : JS.value) : M (option User.t) :=
  match email with
  | JS.Arr items =>
      match cast_elements "email" items with
      | Normal keys =>
          read (λ s, head (filter (λ u, User.email u ∈ keys) (users s)))
      | Throw message => throw message
      end
  | JS.Obj props =>
      if existsb (λ kv, is_operator (fst kv)) props
      then throw "query operators are not part of the embedding"
      else
        match Mongoose.castString "email" email with
        | Normal (JS.Str e) => read (λ s, findOne User.email e (users s))
        | Normal _ => ret None
        | Throw message => throw message
        end
  | _ =>
      match Mongoose.castString "email" email with
      | Normal (JS.Str e) => read (λ s, findOne User.email e (users s))
      | Normal _ => ret None
      | Throw message => throw message
      end
  end.

Section Auth.
(** [jwt.sign({ userId, role }, JWT_SECRET, { expiresIn })] *)
Variable jwt_sign : string → string → string.
(** [bcrypt.compare(candidate, hash)] *)
Variable bcrypt_compare : string → string → bool.

(** A body field that passes the [!field] test. *)
Definition given (field : option string) : option string :=
  match field with
  | Some s => if decide (s = "") then None else Some s
  | None => None
  end.

(** [issueToken(res, user)]: the cookie it sets. *)
Definition issueToken (user : User.t) : string * string :=
  ("Set-Cookie", "token=" +:+ jwt_sign (User._id user) (User.role user)).

Definition invalid_credentials : response :=
  json 401 (JS.Obj [("error", JS.Str "Invalid email or password")]).

(** [user.comparePassword(candidate)]: [bcrypt.compare] takes strings only
    (a JSON body holds no Buffer) and rejects anything else.  The message is
    the one of bcrypt 5.0; other releases word it differently, and no
    statement below depends on the wording. *)
Definition comparePassword (candidate : JS.value) (hash : string)
  : completion bool :=
  match candidate with
  | JS.Str c => Normal (bcrypt_compare c hash)
  | _ => Throw "data and hash must be strings"
  end.

(** POST /login; [email] and [password] are the fields of the JSON body,
    [undefined] when the body has none. *)
Definition post_login (email password : JS.value) : M reply :=
  if negb (JS.truthy email) || negb (JS.truthy password)
  then respond (json 400
         (JS.Obj [("error", JS.Str "Email and password are required")]))
  else
    user <- User_findOne_email email ;;
    match user with
    | None => respond invalid_credentials
    | Some user =>
        valid <- lift (comparePassword password (User.password_hash user)) ;;
        if negb valid
        then respond invalid_credentials
        else
          respond (mkres 200 [issueToken user]
            (JsonBody (JS.Obj [("user", JS.Obj
               [("id", JS.Str (User._id user));
                ("email", JS.Str (User.email user));
                ("role", JS.Str (User.role user))])])))
    end.
End Auth.

(** ** The gateway as a whole *)

(** The job-scoped endpoints. *)
Inductive endpoint : Type :=
| POST_analyze
| GET_status
| GET_results
| GET_results_export
| POST_clean (body : JS.value)
| GET_cleaned
| GET_cleaning_result.

Definition serve (e : endpoint) (jobId : string) (user : req_user) : M reply :=
  match e with
  | POST_analyze => post_analyze jobId user
  | GET_status => get_status jobId user
  | GET_results => get_results jobId user
  | GET_results_export => get_results_export jobId user
  | POST_clean body => post_clean jobId user body
  | GET_cleaned => get_cleaned jobId user
  | GET_cleaning_result => get_cleaning_result jobId user
  end.

(** Everything that touches the stores: an authenticated request, a login,
    or a delegation running in the background. *)
Inductive operation : Type :=
| Upload (jobId : string) (user : req_user) (file : option uploaded_file)
| JobRequest (e : endpoint) (jobId : string) (user : req_user)
| DeleteJobs (user : req_user) (job_ids : option (list string))
| Login (email password : JS.value)
| Run (t : task).

Section Gateway.
Variable PYTHON_URL : string.
Variable worker : string → JS.value → exchange.
Variable jwt_sign : string → string → string.
Variable bcrypt_compare : string → string → bool.

Definition run_task (t : task) : M unit :=
  match t with
  | AnalysisTask jobId => runAnalysis PYTHON_URL worker jobId
  | CleaningTask jobId opts => runCleaning PYTHON_URL worker jobId opts
  end.

(** The stores after an operation; a task's rejection is only logged to
    the console. *)
Definition exec (op : operation) (s : db) : db :=
  match op with
  | Upload jobId user file => snd (route (post_upload jobId user file) s)
  | JobRequest e jobId user => snd (route (serve e jobId user) s)
  | DeleteJobs user job_ids => snd (route (delete_jobs user job_ids) s)
  | Login email password =>
      snd (route (post_login jwt_sign bcrypt_compare email password) s)
  | Run t => snd (run_task t s)
  end.
End Gateway.

(** ** [middleware/auth.js] *)

Section Middleware.
(** [jwt.verify(token, JWT_SECRET)]: the [userId] and [role] of the payload,
    or [None] when it throws. *)
Variable jwt_verify : string → option (string * string).

(** [auth(req, res, next)] with [token = req.cookies?.token]; [next] is the
    rest of the route, run with [req.user]. *)
Definition auth (token : option string) (next : req_user → M reply) : M reply :=
  match given token with
  | None =>
      respond (json 401 (JS.Obj [("error", JS.Str "Authentication required")]))
  | Some t =>
      match jwt_verify t with
      | Some (userId, r) => next (mkuser userId r)
      | None =>
          respond (json 401
            (JS.Obj [("error", JS.Str "Invalid or expired token")]))
      end
  end.
End Middleware.

(** [requireAdmin(req, res, next)] with [user = req.user]. *)
Definition requireAdmin (user : option req_user) (next : M reply) : M reply :=
  match user with
  | Some u =>
      if decide (role u ≠ "admin")
      then respond (json 403 (JS.Obj [("error", JS.Str "Admin access required")]))
      else next
  | None =>
      respond (json 403 (JS.Obj [("error", JS.Str "Admin access required")]))
  end.

(** ** [db/mongo]: [connectWithRetry] *)

(** What the function leaves on the console and the timer. *)
Inductive retry_event : Type :=
| Log (line : string)                       (* [console.log] *)
| LogError (line detail : string)           (* [console.error] *)
| Sleep (ms : Z).                           (* [setTimeout(r, delayMs)] *)

(** [console.error(`Mongo connect failed (${attempt}/${retries})`, message)] *)
Definition retry_line (retries attempt : nat) (message : string)
  : retry_event :=
  LogError ("Mongo connect failed (" +:+ pretty attempt +:+ "/"
            +:+ pretty retries +:+ ")") message.

Section Connect.
(** [mongoose.connect(...)] at its n-th call (from 0): [None] when it
    resolves, the message of the error when it rejects. *)
Variable connect : nat → option string.

(** The [while (attempt < retries)] loop; [fuel] bounds its iterations. *)
Fixpoint connect_loop (retries : nat) (delayMs : Z) (fuel : nat)
    (attempt : nat) : option (completion unit * list retry_event) :=
  if attempt <? retries then
    match fuel with
    | O => None
    | S fuel =>
        match connect attempt with
        | None => Some (Normal tt, [Log "Mongo connected"])
        | Some message =>
            let attempt := attempt + 1 in
            let line := retry_line retries attempt message in
            if retries <=? attempt then Some (Throw message, [line])
            else
              match connect_loop retries delayMs fuel attempt with
              | Some (c, evs) => Some (c, line :: Sleep delayMs :: evs)
              | None => None
              end
        end
    end
  else Some (Normal tt, []).

(** [connectWithRetry(retries = 5, delayMs = 2000)] *)
Definition connectWithRetry (retries : nat) (delayMs : Z)
  : option (completion unit * list retry_event) :=
  connect_loop retries delayMs retries 0.
End Connect.

(** The delays the trace slept, and the failures it reports. *)
Definition sleeps (evs : list retry_event) : list Z :=
  omap (λ ev, if ev is Sleep ms then Some ms else None) evs.

Definition failures (evs : list retry_event) : list string :=
  omap (λ ev, if ev is LogError _ detail then Some detail else None) evs.

(** The trace of [k] failed attempts from attempt number [from] on, each
    followed by a sleep; [message i] is the error of the i-th call. *)
Definition retried (retries : nat) (delayMs : Z) (message : nat → string)
    (from k : nat) : list retry_event :=
  flat_map (λ i, [retry_line retries (i + 1) (message i); Sleep delayMs])
           (seq from k).

(** ** [routes/auth.js]: me *)

(** GET /me, behind [auth]. *)
Definition get_me (user : req_user) : M reply :=
  found <- read (λ s, findOne User._id (id user) (users s)) ;;
  match found with
  | None => respond (json 404 (JS.Obj [("error", JS.Str "User not found")]))
  | Some u =>
      respond (json 200 (JS.Obj [("user", JS.Obj
        [("id", JS.Str (User._id u));
         ("email", JS.Str (User.email u));
         ("role", JS.Str (User.role u))])]))
  end.

(** ** [routes/analysis.js]: the proxies and the job list *)

(** A [fetch] without timer: it rejects with an error whose [cause.code] may
    be set, or it resolves with a response. *)
Inductive proxy_outcome : Type :=
| Rejected (cause_code : option string) (message : string)
| Answered (status : Z) (b : body).

Section Proxies.
Variable PYTHON_URL : string.
Variable raw_worker : string → JS.value → proxy_outcome.

(** GET /raw/:jobId and GET /raw_with_outliers/:jobId; [endpoint] is
    [/internal/raw] or [/internal/raw_with_outliers]. *)
Definition get_raw_from (endpoint : string) (jobId : string) (user : req_user)
  : M reply :=
  job <- findOwnedJob jobId user ;;
  let no_data :=
    respond (json 404 (JS.Obj [("detail", JS.Str "No data found for this job.")]))
  in
  match job with
  | None => no_data
  | Some job =>
      if negb (JS.truthy (Job.file_path job)) then no_data
      else
        match raw_worker (PYTHON_URL +:+ endpoint)
                         (JS.Obj [("file_path", Job.file_path job)]) with
        | Rejected code message =>
            if decide (code = Some "ECONNREFUSED")
            then respond (json 503
                   (JS.Obj [("detail",
                             JS.Str "Python worker is not reachable")]))
            else throw message
        | Answered status b =>
            if negb (ok status)
            then respond (json 502
                   (JS.Obj [("detail", JS.Str "Python worker error")]))
            else
              match b with
              | NotJson message => throw message
              | Json data =>
                  error <- lift (JS.member data "error") ;;
                  if JS.truthy error
                  then respond (json 404 (JS.Obj [("detail", error)]))
                  else respond (json 200 data)
              end
        end
  end.

Definition get_raw : string → req_user → M reply :=
  get_raw_from "/internal/raw".

Definition get_raw_with_outliers : string → req_user → M reply :=
  get_raw_from "/internal/raw_with_outliers".
End Proxies.

Section JobList.
(** The [created_at] of a job document, which the job record here does not
    carry, and [.sort({ created_at: -1 })] on a list of jobs. *)
Variable created_at : Job.t → JS.value.
Variable newest_first : list Job.t → list Job.t.

(** [Job.find(filter)] of GET /jobs. *)
Definition listed (user : req_user) (j : Job.t) : Prop :=
  if decide (role user = "admin") then True else Job.user_id j = id user.

#[global] Instance listed_dec user j : Decision (listed user j).
Proof. unfold listed. destruct (decide (role user = "admin")); apply _. Defined.

(** One element of the response of GET /jobs. *)
Definition job_entry (analysisSet cleaningSet : list string) (j : Job.t)
  : JS.value :=
  JS.Obj [("_id", JS.Str (Job._id j));
          ("file_name", JS.or (JS.Str (Job.file_name j)) (JS.Str "unknown"));
          ("status", JS.Str (Job.status j));
          ("mode", JS.Str (Job.mode j));
          ("created_at", created_at j);
          ("has_analysis", JS.Bool (bool_decide (Job._id j ∈ analysisSet)));
          ("has_cleaning", JS.Bool (bool_decide (Job._id j ∈ cleaningSet)))].

(** GET /jobs *)
Definition get_jobs (user : req_user) : M reply :=
  found <- read (λ s, newest_first (filter (listed user) (jobs s))) ;;
  let jobIds := Job._id <$> found in
  analysisHits <- read (λ s, find_in AnalysisResult.job_id jobIds
                                     (analysis_results s)) ;;
  cleaningHits <- read (λ s, find_in CleaningResult.job_id jobIds
                                     (cleaning_results s)) ;;
  let analysisSet := AnalysisResult.job_id <$> analysisHits in
  let cleaningSet := CleaningResult.job_id <$> cleaningHits in
  respond (json 200 (JS.Arr (job_entry analysisSet cleaningSet <$> found))).
End JobList.

(** The fields of a job that only its creation sets. *)
Definition identity_of (j : Job.t)
  : string * string * string * string * JS.value :=
  (Job._id j, Job.user_id j, Job.mode j, Job.file_name j, Job.file_path j).

(** ** The specification's tables

    These two definitions follow the words of the specification, not the
    code: the transition table of its section 4.1 and the closed set of
    audit event kinds of its section 4.3.  The code is compared with them. *)

Module Spec.



(** The states of the table: what a stored job can be in. *)
Definition lifecycle_states : list string :=
["starting"; "running"; "completed"; "failed"; "cleaning"; "cleaned"].

(** The closed set of audit event kinds. *)
Inductive event_kind : Type :=
| job_created
| file_received
| operation_enqueued
| operation_started
| rule_applied
| operation_completed
| operation_failed
| job_deleted.

(** The kind an event-type string of the code stands for. *)
Definition kind_of (event_type : string) : option event_kind :=
if decide (event_type = "JOB_CREATED") then Some job_created
else if decide (event_type = "FILE_UPLOADED") then Some file_received
else if decide (event_type ∈ ["ANALYSIS_ENQUEUED"; "CLEANING_ENQUEUED"])
then Some operation_enqueued
else if decide (event_type ∈ ["ANALYSIS_STARTED"; "CLEANING_STARTED"])
then Some operation_started
else if decide (event_type = "RULE_APPLIED") then Some rule_applied
else if decide (event_type ∈ ["ANALYSIS_COMPLETED"; "CLEANING_COMPLETED"])
then Some operation_completed
else if decide (event_type ∈ ["ANALYSIS_FAILED"; "ERROR"])
then Some operation_failed
else if decide (event_type = "JOB_DELETED") then Some job_deleted
else None.



End Spec.

(** ** Observations on the stores *)

(** The payloads a loop of INSERTs writes: all up to the first one that
    Postgres rejects. *)
Fixpoint written (payloads : list JS.value) : list JS.value :=
  match payloads with
  | [] => []
  | p :: rest =>
      if Pg.jsonb_in (default_payload p) then p :: written rest else []
  end.

Definition all_written (payloads : list JS.value) : bool :=
  forallb (λ p, Pg.jsonb_in (default_payload p)) payloads.



(** The status GET /status reads for a stored job. *)
Definition status_of (jobId : string) (s : db) : option string :=
  Job.status <$> Job.findById jobId (jobs s).

(** The events an operation appended, given the log before and after. *)
Definition appended (before after : db) (evs : list AuditEvent.t) : Prop :=
  audit_log after = audit_log before ++ evs.


(** Every stored job is in a state of the lifecycle table. *)
Definition statuses_within (s : db) : Prop :=
  Forall (λ j, Job.status j ∈ Spec.lifecycle_states) (jobs s).

(** The event-type strings that stand for a kind of the closed set. *)
Definition closed_type (ev : AuditEvent.t) : Prop :=
  is_Some (Spec.kind_of (AuditEvent.event_type ev)).

(** The paths [unlink_if_set] removes for a stored path value. *)
Definition artifact (p : JS.value) : gset string :=
  match p with
  | JS.Str f => if decide (f = "") then ∅ else {[f]}
  | _ => ∅
  end.

(** The on-disk artifacts of a job: the upload and the cleaned file. *)
Definition artifacts (j : Job.t) : gset string :=
  artifact (Job.file_path j) ∪ artifact (Job.cleaned_file_path j).

(** Running [m] from any stores ends in stores that [R] relates to them. *)
Definition steps (R : relation db) {A} (m : M A) : Prop :=
  ∀ s, R s (snd (m s)).

(** The log only grew, and only by events of the closed set. *)
Definition logs_closed (s s' : db) : Prop :=
  ∃ evs, appended s s' evs ∧ Forall closed_type evs.

(** Stored statuses stayed within the table. *)
Definition keeps_statuses (s s' : db) : Prop :=
  statuses_within s → statuses_within s'.

(** Both result stores satisfy their unique index on [job_id]. *)
Definition results_unique (s : db) : Prop :=
  unique AnalysisResult.job_id (analysis_results s) ∧
  unique CleaningResult.job_id (cleaning_results s).

(** The unique indexes of the result stores were kept. *)
Definition keeps_unique (s s' : db) : Prop :=
  results_unique s → results_unique s'.

(** No job was created or deleted, every job kept its owner, mode, file name
    and source path, and users and disk are as they were. *)
Definition keeps_identity (s s' : db) : Prop :=
  identity_of <$> jobs s' = identity_of <$> jobs s ∧
  users s' = users s ∧
  disk s' = disk s.

(** Every job other than [jobId] and every result record of another job is
    as it was, and the events appended are events of [jobId]. *)
Definition touches_only (jobId : string) (s s' : db) : Prop :=
  (∀ other, other ≠ jobId →
     Job.findById other (jobs s') = Job.findById other (jobs s) ∧
     findOne AnalysisResult.job_id other (analysis_results s')
       = findOne AnalysisResult.job_id other (analysis_results s) ∧
     findOne CleaningResult.job_id other (cleaning_results s')
       = findOne CleaningResult.job_id other (cleaning_results s)) ∧
  ∃ evs, appended s s' evs ∧
         Forall (λ ev, AuditEvent.job_id ev = jobId) evs.

(** The job a delegation works on. *)
Definition task_job (t : task) : string :=
  match t with
  | AnalysisTask jobId => jobId
  | CleaningTask jobId _ => jobId
  end.

(** The primary key of the job store was kept. *)
Definition keeps_job_ids (s s' : db) : Prop :=
  unique Job._id (jobs s) → unique Job._id (jobs s').

(** ** Sample stores, subjects and workers *)

Module Sample.

Definition alice : req_user := mkuser "u-alice" "user".
Definition bob : req_user := mkuser "u-bob" "user".

Definition job_a : Job.t :=
  Job.mk "job-a" "starting" "normal" "u-alice" "a.csv"
         (JS.Str "/uploads/a.csv") JS.Undefined.

Definition job_b : Job.t :=
  Job.mk "job-b" "completed" "normal" "u-bob" "b.csv"
         (JS.Str "/uploads/b.csv") (JS.Str "/uploads/b-cleaned.csv").

Definition result_b : AnalysisResult.t :=
  AnalysisResult.mk "job-b"
    (JS.Obj [("cleaned_data", JS.Obj [("rows", JS.Num 10)]);
             ("quality_report", JS.Obj [("missing_rate", JS.Num 0)])])
    (JS.Str "in-memory").

Definition cleaning_b : CleaningResult.t :=
  CleaningResult.mk "job-b" (JS.Str "auto") (JS.Arr [])
                    (JS.Obj [("rows_removed", JS.Num 0)]).

Definition user_alice : User.t :=
  User.mk "u-alice" "alice@example.org" "hashed:correct horse" "user".

Definition store : db :=
  mkdb [job_a; job_b] [result_b] [cleaning_b] [user_alice] []
       {[ "/uploads/a.csv"; "/uploads/b.csv"; "/uploads/b-cleaned.csv" ]}.

Definition url : string := "http://127.0.0.1:8000".

(** The worker never answers within the timeout. *)
Definition worker_timeout (_ : string) (_ : JS.value) : exchange :=
  Silent.


(** The worker reports a logical failure. *)
Definition worker_failed (_ : string) (_ : JS.value) : exchange :=
  Replied 40 200 5 (Json (JS.Obj [("status", JS.Str "failed");
                                  ("error", JS.Str "empty dataset")])).

(** The worker answers in full. *)
Definition worker_full (_ : string) (_ : JS.value) : exchange :=
  Replied 40 200 5 (Json (JS.Obj
    [("status", JS.Str "ok");
     ("result", JS.Obj [("cleaned_data", JS.Obj [("rows", JS.Num 120);
                                                 ("columns", JS.Num 4)]);
                        ("quality_report", JS.Obj [("missing_rate", JS.Num 0)]);
                        ("meta", JS.Obj [("analysis_type", JS.Str "streaming");
                                         ("duration_ms", JS.Num 12)])]);
     ("cleaned_file_path", JS.Str "/uploads/a-cleaned.csv");
     ("rules_applied", JS.Arr [JS.Obj [("rule", JS.Str "drop_duplicates")];
                               JS.Obj [("rule", JS.Str "trim_whitespace")]]);
     ("summary", JS.Obj [("rows_removed", JS.Num 3)])])).

(** The worker answers a cleaning without naming the cleaned file. *)
Definition worker_pathless (_ : string) (_ : JS.value) : exchange :=
  Replied 40 200 5 (Json (JS.Obj [("status", JS.Str "ok");
                                  ("rules_applied", JS.Arr []);
                                  ("summary", JS.Obj [])])).






Definition auto : cleaningOptions := mkopts (JS.Str "auto") (JS.Obj []).

Definition jwt_sign (userId role : string) : string :=
  "jwt." +:+ userId +:+ "." +:+ role.

Definition bcrypt_compare (candidate hash : string) : bool :=
  bool_decide (hash = "hashed:" +:+ candidate).

End Sample.

(** * Facts about the model operations *)

Section ModelFacts.
Context {Doc : Type} (key : Doc → string).
Implicit Types (c : list Doc) (d doc : Doc) (k : string).

Lemma findOne_cons k d c :
  findOne key k (d :: c) = if decide (key d = k) then Some d else findOne key k c.
Proof.
  unfold findOne. rewrite filter_cons. destruct (decide (key d = k)); done.
Qed.

Lemma findOne_Some k c d :
  findOne key k c = Some d → d ∈ c ∧ key d = k.
Proof.
  induction c as [|x c IH]; [done|].
  rewrite findOne_cons. destruct (decide (key x = k)) as [Hx|Hx].
  - intros [= <-]. split; [left | done].
  - intros H. destruct (IH H). split; [by right | done].
Qed.

Lemma findOne_None k c :
  findOne key k c = None ↔ k ∉ key <$> c.
Proof.
  induction c as [|x c IH]; [by split; [intros _; apply not_elem_of_nil|]|].
  rewrite findOne_cons, fmap_cons, not_elem_of_cons.
  destruct (decide (key x = k)); [split; [done | intros []; congruence]|].
  rewrite IH. split; [intros; split; congruence | tauto].
Qed.

Lemma findOne_app_miss k c c' :
  findOne key k c = None → findOne key k (c ++ c') = findOne key k c'.
Proof.
  induction c as [|x c IH]; [done|]. simpl.
  rewrite !findOne_cons. destruct (decide (key x = k)); [done | exact IH].
Qed.

Lemma findOne_app_hit k c c' d :
  findOne key k c = Some d → findOne key k (c ++ c') = Some d.
Proof.
  induction c as [|x c IH]; [done|]. simpl.
  rewrite !findOne_cons. destruct (decide (key x = k)); [done | exact IH].
Qed.

(** An update that keeps the matched key keeps every key. *)
Lemma keys_updateOne k (f : Doc → Doc) c :
  (∀ d, key d = k → key (f d) = k) →
  key <$> updateOne key k f c = key <$> c.
Proof.
  intros Hf. induction c as [|x c IH]; [done|]. cbn [updateOne].
  destruct (decide (key x = k)) as [Hx|Hx]; rewrite !fmap_cons.
  - by rewrite (Hf x Hx), Hx.
  - by rewrite IH.
Qed.

Lemma findOne_updateOne k (f : Doc → Doc) c :
  (∀ d, key d = k → key (f d) = k) →
  findOne key k (updateOne key k f c) = f <$> findOne key k c.
Proof.
  intros Hf. induction c as [|x c IH]; [done|]. simpl.
  destruct (decide (key x = k)) as [Hx|Hx].
  - rewrite !findOne_cons, (Hf x Hx).
    destruct (decide (k = k)); [|done]. by rewrite decide_True.
  - rewrite !findOne_cons, !decide_False by done. exact IH.
Qed.

Lemma findOne_updateOne_ne k k' (f : Doc → Doc) c :
  k ≠ k' → (∀ d, key d = k → key (f d) = k) →
  findOne key k' (updateOne key k f c) = findOne key k' c.
Proof.
  intros Hne Hf. induction c as [|x c IH]; [done|]. simpl.
  destruct (decide (key x = k)) as [Hx|Hx].
  - rewrite !findOne_cons, (Hf x Hx), !decide_False by congruence. done.
  - rewrite !findOne_cons. destruct (decide (key x = k')); [done | exact IH].
Qed.

Lemma count_updateOne k k' (f : Doc → Doc) c :
  (∀ d, key d = k → key (f d) = k) →
  count key k' (updateOne key k f c) = count key k' c.
Proof.
  intros Hf. unfold count. induction c as [|x c IH]; [done|]. simpl.
  destruct (decide (key x = k)) as [Hx|Hx].
  - rewrite !filter_cons, (Hf x Hx), Hx.
    destruct (decide (k = k')); done.
  - rewrite !filter_cons. destruct (decide (key x = k')); simpl; by rewrite IH.
Qed.

Lemma count_absent k c : k ∉ key <$> c → count key k c = 0.
Proof.
  unfold count. induction c as [|x c IH]; [done|].
  rewrite fmap_cons, not_elem_of_cons, filter_cons. intros [Hx Hc].
  rewrite decide_False by done. by apply IH.
Qed.

(** Under the unique index a key has at most one live document. *)
Lemma count_unique k c : unique key c → count key k c ≤ 1.
Proof.
  unfold unique, count. induction c as [|x c IH]; [simpl; lia|].
  rewrite fmap_cons, NoDup_cons, filter_cons. intros [Hx Hc].
  destruct (decide (key x = k)) as [<-|]; [|by apply IH].
  simpl. pose proof (count_absent _ _ Hx) as H0. unfold count in H0. lia.
Qed.

Lemma count_found k c d : findOne key k c = Some d → 1 ≤ count key k c.
Proof.
  unfold findOne, count. destruct (filter _ c); [done | simpl; lia].
Qed.

Lemma count_app k c c' :
  count key k (c ++ c') = count key k c + count key k c'.
Proof. unfold count. by rewrite filter_app, length_app. Qed.

Section Upsert.
Variables (k : string) (doc : Doc).
Hypothesis key_doc : key doc = k.

Lemma findOne_upsert c :
  findOne key k (replaceOne_upsert key k doc c) = Some doc.
Proof.
  unfold replaceOne_upsert. destruct (findOne key k c) eqn:E.
  - rewrite findOne_updateOne by done. by rewrite E.
  - rewrite findOne_app_miss by done.
    rewrite findOne_cons, decide_True; done.
Qed.

Lemma findOne_upsert_ne k' c :
  k ≠ k' →
  findOne key k' (replaceOne_upsert key k doc c) = findOne key k' c.
Proof.
  intros Hne. unfold replaceOne_upsert. destruct (findOne key k c) eqn:E.
  - by apply findOne_updateOne_ne.
  - destruct (findOne key k' c) eqn:E'.
    + by apply findOne_app_hit.
    + rewrite findOne_app_miss by done.
      rewrite findOne_cons, decide_False by congruence. done.
Qed.

Lemma unique_upsert c :
  unique key c → unique key (replaceOne_upsert key k doc c).
Proof.
  unfold unique, replaceOne_upsert. intros Hc.
  destruct (findOne key k c) eqn:E.
  - by rewrite keys_updateOne.
  - apply findOne_None in E.
    rewrite fmap_app. apply NoDup_app. split; [done|]. split.
    + intros x Hx. simpl. rewrite key_doc.
      intros ->%list_elem_of_singleton. done.
    + simpl. apply NoDup_singleton.
Qed.

Lemma count_upsert c :
  unique key c → count key k (replaceOne_upsert key k doc c) = 1.
Proof.
  intros Hc.
  pose proof (count_unique k _ (unique_upsert c Hc)).
  pose proof (count_found k _ _ (findOne_upsert c)). lia.
Qed.
End Upsert.
End ModelFacts.


(** * Facts about the stores *)

Lemma findById_set_status jobId st (c : list Job.t) :
  Job.findById jobId (updateOne Job._id jobId (Job.set_status st) c)
  = Job.set_status st <$> Job.findById jobId c.
Proof. by apply findOne_updateOne. Qed.

Lemma findById_set_cleaned jobId p st (c : list Job.t) :
  Job.findById jobId (updateOne Job._id jobId (Job.set_cleaned p st) c)
  = Job.set_cleaned p st <$> Job.findById jobId c.
Proof. by apply findOne_updateOne. Qed.

Lemma for_of_auditLog jobId ty (payloads : list JS.value) (s : db) :
  for_of payloads (λ r, auditLog jobId ty r) s
  = (if all_written payloads then Normal tt else Throw Pg.invalid_json,
     with_audit_log
       (λ log, log ++ ((λ r, AuditEvent.mk jobId ty (default_payload r))
                         <$> written payloads)) s).
Proof.
  revert s. induction payloads as [|p ps IH]; intros s.
  - destruct s. unfold with_audit_log. simpl. by rewrite app_nil_r.
  - cbn [for_of written all_written forallb]. unfold bind at 1.
    unfold auditLog at 1, write, throw.
    destruct (Pg.jsonb_in (default_payload p)); cbn [andb].
    + rewrite IH. destruct s. unfold with_audit_log. simpl.
      by rewrite <- app_assoc.
    + destruct s. unfold with_audit_log. simpl. by rewrite app_nil_r.
Qed.

Lemma written_all (payloads : list JS.value) :
  all_written payloads = true → written payloads = payloads.
Proof.
  induction payloads as [|p ps IH]; [done|]. cbn.
  destruct (Pg.jsonb_in (default_payload p)); [|done].
  intros H. by rewrite IH.
Qed.



(** * Facts about the delegations *)

Section DelegationFacts.
Variable PYTHON_URL : string.
Variable worker : string → JS.value → exchange.


Lemma runCleaning_begin_ok jobId opts job s :
  Job.findById jobId (jobs s) = Some job →
  JS.truthy (Job.file_path job) = true →
  runCleaning_begin jobId opts s
  = (Normal job,
     with_audit_log
       (λ log, log ++ [AuditEvent.mk jobId "CLEANING_STARTED"
                         (JS.Obj [("mode", opt_mode opts)])])
       (with_jobs (updateOne Job._id jobId (Job.set_status "cleaning")) s)).
Proof.
  intros Hj Hp. unfold runCleaning_begin, bind, Job_findById, read.
  rewrite Hj, Hp. reflexivity.
Qed.

(** Reads a job back through the status and path updates made to it. *)
Ltac read_back Hj :=
  unfold status_of, appended; cbn;
  repeat (rewrite findById_set_status || rewrite findById_set_cleaned);
  rewrite ?Hj, <- ?app_assoc; cbn.




Ltac open_cleaning Hj Hp :=
  unfold runCleaning, bind at 1;
  rewrite (runCleaning_begin_ok _ _ _ _ Hj Hp);
  unfold try_catch, runCleaning_try, post_json, bind at 1.






(** A resolved cleaning stored the record, marked the job cleaned and logged
    start, rules and completion in that order. *)
Lemma runCleaning_return jobId opts job s u s' :
  Job.findById jobId (jobs s) = Some job →
  JS.truthy (Job.file_path job) = true →
  runCleaning PYTHON_URL worker jobId opts s = (Normal u, s') →
  ∃ st data rules rows cast,
    fetch CLEANING_TIMEOUT_MS
      (worker (PYTHON_URL +:+ "/internal/clean")
              (cleaning_request jobId job opts))
      = Responded st (Json data) ∧
    JS.iterate "data.rules_applied" (JS.prop data "rules_applied")
      = Normal rules ∧
    all_written rules = true ∧
    JS.member (JS.prop data "summary") "rows_removed" = Normal rows ∧
    Mongoose.castString "cleaned_file_path" (JS.prop data "cleaned_file_path")
      = Normal cast ∧
    status_of jobId s' = Some "cleaned" ∧
    Job.cleaned_file_path <$> Job.findById jobId (jobs s')
      = Some (match cast with
              | JS.Undefined => Job.cleaned_file_path job
              | _ => cast
              end) ∧
    appended s s'
      (AuditEvent.mk jobId "CLEANING_STARTED"
         (JS.Obj [("mode", opt_mode opts)])
       :: ((λ r, AuditEvent.mk jobId "RULE_APPLIED" (default_payload r))
             <$> rules) ++
       [AuditEvent.mk jobId "CLEANING_COMPLETED"
          (JS.Obj [("cleaned_file_path", JS.prop data "cleaned_file_path");
                   ("rows_removed", rows)])]) ∧
    findOne CleaningResult.job_id jobId (cleaning_results s')
      = Some (CleaningResult.stored
                (CleaningResult.mk jobId
                   (JS.or (JS.prop data "mode")
                          (JS.or (opt_mode opts) (JS.Str "auto")))
                   (JS.prop data "rules_applied")
                   (JS.prop data "summary"))).
Proof.
  intros Hj Hp. open_cleaning Hj Hp.
  destruct (fetch _ (worker _ _)) as [|m|st [data|m]]; cbn; try discriminate.
  all: destruct (ok st); cbn; try discriminate.
  unfold bind at 1, lift.
  destruct (JS.member data "status") as [status|m]; cbn; try discriminate.
  destruct (JS.is_string _ _); cbn; try discriminate.
  unfold bind at 1. unfold bind at 1. unfold Job_set_cleaned.
  destruct (Mongoose.castString _ _) as [cast|m] eqn:Hcast; cbn;
    try discriminate.
  destruct (JS.iterate _ _) as [rules|m] eqn:Hit; cbn; try discriminate.
  unfold bind. rewrite for_of_auditLog.
  destruct (all_written rules) eqn:Hall; cbn; try discriminate.
  destruct (JS.member (JS.prop data "summary") "rows_removed")
    as [rows|m] eqn:Hrows; cbn; try discriminate.
  intros [= <- <-]. exists st, data, rules, rows, cast. read_back Hj.
  rewrite findOne_upsert by done. rewrite (written_all rules Hall).
  repeat split; done.
Qed.





End DelegationFacts.

(** * Relations every step of a computation keeps *)

Section Steps.
Variable R : relation db.
Context {R_refl : Reflexive R} {R_trans : Transitive R}.

Lemma steps_ret {A} (a : A) : steps R (ret a).
Proof. intros s. simpl. reflexivity. Qed.

Lemma steps_throw {A} e : steps R (@throw A e).
Proof. intros s. simpl. reflexivity. Qed.

Lemma steps_lift {A} (c : completion A) : steps R (lift c).
Proof. intros s. simpl. reflexivity. Qed.

Lemma steps_read {A} (f : db → A) : steps R (read f).
Proof. intros s. simpl. reflexivity. Qed.

Lemma steps_write (f : db → db) : (∀ s, R s (f s)) → steps R (write f).
Proof. intros Hf s. simpl. apply Hf. Qed.

Lemma steps_bind {A B} (m : M A) (k : A → M B) :
  steps R m → (∀ a, steps R (k a)) → steps R (bind m k).
Proof.
  intros Hm Hk s. unfold bind. specialize (Hm s).
  destruct (m s) as [[a|e] s1]; simpl in *; [|done].
  etransitivity; [exact Hm | apply Hk].
Qed.

Lemma steps_try_catch {A} (m : M A) (h : string → M A) :
  steps R m → (∀ e, steps R (h e)) → steps R (try_catch m h).
Proof.
  intros Hm Hh s. unfold try_catch. specialize (Hm s).
  destruct (m s) as [[a|e] s1]; simpl in *; [done|].
  etransitivity; [exact Hm | apply Hh].
Qed.

Lemma steps_for_of {A} (l : list A) (body : A → M unit) :
  (∀ x, steps R (body x)) → steps R (for_of l body).
Proof.
  intros Hb. induction l as [|x l IH]; simpl.
  - apply steps_ret.
  - apply steps_bind; [apply Hb | intros _; exact IH].
Qed.

Lemma steps_route (h : M reply) : steps R h → ∀ s, R s (snd (route h s)).
Proof.
  intros Hh s. unfold route. specialize (Hh s).
  destruct (h s) as [[a|e] s1]; done.
Qed.
End Steps.

(** Looking a user up only reads. *)
Lemma steps_User_findOne_email (R : relation db) `{!Reflexive R} email :
  steps R (User_findOne_email email).
Proof.
  unfold User_findOne_email.
  destruct email as [| | | | | |items|props];
    try (destruct (Mongoose.castString _ _) as [[]|];
         solve [by apply steps_read | by apply steps_ret
               | by apply steps_throw]).
  - destruct (cast_elements _ _); [by apply steps_read | by apply steps_throw].
  - destruct (existsb _ _); [by apply steps_throw|].
    destruct (Mongoose.castString _ _) as [[]|];
      solve [by apply steps_read | by apply steps_ret | by apply steps_throw].
Qed.

(** Takes a computation apart down to its store accesses. *)
Ltac step :=
  lazymatch goal with
  | |- steps _ (User_findOne_email _) =>
      apply steps_User_findOne_email; apply _
  | |- steps _ (bind _ _) => apply steps_bind; [apply _ | | intros ?]
  | |- steps _ (try_catch _ _) => apply steps_try_catch; [apply _ | | intros ?]
  | |- steps _ (for_of _ _) => apply steps_for_of; [apply _ .. | intros ?]
  | |- steps _ (ret _) => apply steps_ret; apply _
  | |- steps _ (respond _) => apply steps_ret; apply _
  | |- steps _ (throw _) => apply steps_throw; apply _
  | |- steps _ (lift _) => apply steps_lift; apply _
  | |- steps _ (read _) => apply steps_read; apply _
  | |- steps _ (if ?b then _ else _) => destruct b
  | |- steps _ (match ?x with _ => _ end) => destruct x
  end.

(** ** The audit log only grows, and only by events of the closed set *)

#[local] Instance logs_closed_refl : Reflexive logs_closed.
Proof. intros s. exists []. split; [unfold appended; by rewrite app_nil_r | done]. Qed.

#[local] Instance logs_closed_trans : Transitive logs_closed.
Proof.
  intros s1 s2 s3 (e1 & H1 & F1) (e2 & H2 & F2). exists (e1 ++ e2).
  unfold appended in *. split; [by rewrite H2, H1, app_assoc|].
  by apply Forall_app.
Qed.

Lemma logs_closed_frame (f : db → db) :
  (∀ s, audit_log (f s) = audit_log s) → steps logs_closed (write f).
Proof.
  intros Hf. apply steps_write. intros s. exists [].
  split; [unfold appended; by rewrite Hf, app_nil_r | done].
Qed.

Lemma logs_closed_auditLog jobId ty payload :
  is_Some (Spec.kind_of ty) → steps logs_closed (auditLog jobId ty payload).
Proof.
  intros Hty. unfold auditLog. destruct (Pg.jsonb_in _).
  - apply steps_write. intros s. eexists. split; [reflexivity|].
    by apply Forall_singleton.
  - apply steps_throw. apply _.
Qed.

Ltac closed_log :=
  repeat step;
  try (apply logs_closed_auditLog; vm_compute; eauto);
  try (apply logs_closed_frame; intros []; reflexivity).

Lemma logs_closed_findOwnedJob jobId user :
  steps logs_closed (findOwnedJob jobId user).
Proof. unfold findOwnedJob, Job_findById. closed_log. Qed.

Lemma logs_closed_unlink p : steps logs_closed (unlink_if_set p).
Proof. unfold unlink_if_set. closed_log. Qed.

Lemma logs_closed_run_task PYTHON_URL worker t :
  steps logs_closed (run_task PYTHON_URL worker t).
Proof.
  destruct t as [jobId|jobId opts]; simpl.
  - unfold runAnalysis, runAnalysis_begin, runAnalysis_try,
      runAnalysis_catch, post_json, Job_findById, Job_updateOne,
      AnalysisResult_replaceOne.
    closed_log.
  - unfold runCleaning, runCleaning_begin, runCleaning_try,
      runCleaning_catch, post_json, Job_set_cleaned, Job_findById, Job_updateOne,
      CleaningResult_replaceOne.
    closed_log.
Qed.

Lemma logs_closed_exec PYTHON_URL worker jwt_sign bcrypt_compare op s :
  logs_closed s (exec PYTHON_URL worker jwt_sign bcrypt_compare op s).
Proof.
  destruct op as [jobId user file|e jobId user|user ids|email password|t];
    [simpl; apply steps_route ..|apply logs_closed_run_task].
  - unfold post_upload, multer_single, Job_create, Job_findById. closed_log.
  - destruct e; simpl;
      unfold post_analyze, get_status, get_results, get_results_export,
        post_clean, get_cleaned, get_cleaning_result,
        AnalysisResult_findOne, CleaningResult_findOne;
      (apply steps_bind; [apply _ | apply logs_closed_findOwnedJob | intros ?]);
      closed_log.
  - unfold delete_jobs.
    destruct ids as [[|i ids]|]; closed_log; apply logs_closed_unlink.
  - unfold post_login. closed_log.
Qed.

(** ** Stored statuses stay within the states of the lifecycle table *)

#[local] Instance keeps_statuses_refl : Reflexive keeps_statuses.
Proof. intros s Hs. exact Hs. Qed.

#[local] Instance keeps_statuses_trans : Transitive keeps_statuses.
Proof. intros s1 s2 s3 H1 H2 H. by apply H2, H1. Qed.











(** ** The result stores keep their unique index *)

#[local] Instance keeps_unique_refl : Reflexive keeps_unique.
Proof. intros s Hs. exact Hs. Qed.

#[local] Instance keeps_unique_trans : Transitive keeps_unique.
Proof. intros s1 s2 s3 H1 H2 H. by apply H2, H1. Qed.

Lemma unique_deleteMany_in {Doc} (key : Doc → string) ks (c : list Doc) :
  unique key c → unique key (deleteMany_in key ks c).
Proof.
  unfold unique, deleteMany_in. induction c as [|d c IH]; [done|].
  rewrite fmap_cons, NoDup_cons, filter_cons. intros [Hd Hc].
  destruct (decide (key d ∉ ks)); [|by apply IH].
  rewrite fmap_cons, NoDup_cons. split; [|by apply IH].
  intros (d' & Hk & [_ Hd']%list_elem_of_filter)%list_elem_of_fmap.
  apply Hd. rewrite Hk. by apply list_elem_of_fmap_2.
Qed.











(** * The walk-through of the specification, run on the model *)

(** Upload a 10 KiB file, ask for its analysis, let the worker answer: the job
    is completed and GET /results returns the stored report. *)
Example upload_analyze_complete :
  let run := exec Sample.url Sample.worker_full Sample.jwt_sign
                  Sample.bcrypt_compare in
  let s1 := run (Upload "job-c" Sample.alice
                   (Some (mkfile "c.csv" "/uploads/c.csv" (10 * 1024))))
                (mkdb [] [] [] [] [] ∅) in
  let s2 := run (JobRequest POST_analyze "job-c" Sample.alice) s1 in
  let s3 := run (Run (AnalysisTask "job-c")) s2 in
  status_of "job-c" s1 = Some "starting" ∧
  status_of "job-c" s3 = Some "completed" ∧
  AuditEvent.event_type <$> audit_log s3
    = ["JOB_CREATED"; "FILE_UPLOADED"; "ANALYSIS_ENQUEUED";
       "ANALYSIS_STARTED"; "ANALYSIS_COMPLETED"] ∧
  fst (route (serve GET_results "job-c" Sample.alice) s3)
    = (json 200 (JS.Obj [("cleaned_data", JS.Obj [("rows", JS.Num 120);
                                                  ("columns", JS.Num 4)]);
                         ("quality_report",
                          JS.Obj [("missing_rate", JS.Num 0)])]), None).
Proof. vm_compute. repeat split. Qed.

(** The same with a worker that times out: the job is failed and
    GET /results answers 404. *)
Example upload_analyze_timeout :
  let run := exec Sample.url Sample.worker_timeout Sample.jwt_sign
                  Sample.bcrypt_compare in
  let s1 := run (Upload "job-c" Sample.alice
                   (Some (mkfile "c.csv" "/uploads/c.csv" (10 * 1024))))
                (mkdb [] [] [] [] [] ∅) in
  let s2 := run (JobRequest POST_analyze "job-c" Sample.alice) s1 in
  let s3 := run (Run (AnalysisTask "job-c")) s2 in
  status_of "job-c" s3 = Some "failed" ∧
  last (audit_log s3)
    = Some (AuditEvent.mk "job-c" "ANALYSIS_FAILED"
              (JS.Obj [("error", JS.Str "This operation was aborted")])) ∧
  fst (route (serve GET_results "job-c" Sample.alice) s3)
    = (results_not_found, None).
Proof. vm_compute. repeat split. Qed.

(** A cleaning whose worker answers in full. *)
Example clean_complete :
  let s' := exec Sample.url Sample.worker_full Sample.jwt_sign
                 Sample.bcrypt_compare
                 (Run (CleaningTask "job-b" Sample.auto)) Sample.store in
  status_of "job-b" s' = Some "cleaned" ∧
  AuditEvent.event_type <$> audit_log s'
    = ["CLEANING_STARTED"; "RULE_APPLIED"; "RULE_APPLIED";
       "CLEANING_COMPLETED"].
Proof. vm_compute. repeat split. Qed.

Example to_string_samples :
  JS.to_string (JS.Arr [JS.Num 1; JS.Null; JS.Str "a"]) = "1,,a" ∧
  JS.to_string (JS.Obj []) = "[object Object]" ∧
  JS.to_string (JS.Real "1e+21") = "1e+21" ∧
  JS.iterate "x" (JS.Str "ab") = Normal [JS.Str "a"; JS.Str "b"] ∧
  JS.member JS.Null "status"
    = Throw "Cannot read properties of null (reading 'status')".
Proof. vm_compute. repeat split. Qed.

(** What Mongoose keeps of a value, and what Postgres takes as a payload. *)
Example store_samples :
  Mongoose.minimize
    (JS.Obj [("cleaned_data", JS.Obj []);
             ("meta", JS.Obj [("notes", JS.Obj [])]);
             ("columns", JS.Arr [JS.Obj []; JS.Obj [("stats", JS.Obj [])]]);
             ("rows", JS.Num 3)])
    = JS.Obj [("columns", JS.Arr [JS.Obj []; JS.Obj []]); ("rows", JS.Num 3)] ∧
  Mongoose.minimize (JS.Obj []) = JS.Undefined ∧
  Mongoose.castString "cleaned_file_path" (JS.Num 7) = Normal (JS.Str "7") ∧
  Pg.jsonb_in (JS.Obj [("rule", JS.Str "drop_duplicates")]) = true ∧
  Pg.jsonb_in (JS.Str "drop_duplicates") = false ∧
  Pg.jsonb_in (JS.Str "12") = true ∧
  Pg.jsonb_in (JS.Arr [JS.Num 1]) = false ∧
  Pg.jsonb_in (JS.Arr []) = true.
Proof. vm_compute. repeat split. Qed.

(** * Properties of the gateway *)

(** ** Result store *)




(** ** Upload *)

(** C8. For every uploaded file (stored under a fresh job id) the route
    answers with the new job id, and the job it created has status
    [starting], belongs to the caller, and has mode [large] exactly when the
    file is larger than 50 MiB and mode [normal] otherwise. *)
Theorem upload_creates_starting_job
    (jobId : string) (user : req_user) (file : uploaded_file) (s : db) :
  Job.findById jobId (jobs s) = None →
  ∃ s' job,
    route (post_upload jobId user (Some file)) s
      = ((json 200 (JS.Obj [("job_id", JS.Str jobId)]), None), s') ∧
    Job.findById jobId (jobs s') = Some job ∧
    Job.status job = "starting" ∧
    Job.user_id job = id user ∧
    ((50 * 1024 * 1024 < size file)%Z → Job.mode job = "large") ∧
    ((size file ≤ 50 * 1024 * 1024)%Z → Job.mode job = "normal").
Proof.
  intros Hfresh. unfold route, post_upload, bind, multer_single, write,
    Job_create, Job_findById, read. cbn. rewrite Hfresh. cbn.
  eexists _, _. split; [reflexivity|]. cbn. split.
  - unfold Job.findById. rewrite findOne_app_miss by exact Hfresh.
    rewrite findOne_cons. cbn. rewrite decide_True by done. reflexivity.
  - cbn. repeat split.
    + intros Hbig. destruct (Z.gtb_spec (size file) (50 * 1024 * 1024));
        [done | lia].
    + intros Hsmall. destruct (Z.gtb_spec (size file) (50 * 1024 * 1024));
        [lia | done].
Qed.

(** A 10 KiB upload: mode [normal], status [starting]. *)
Lemma upload_creates_starting_job_witness :
  ∃ s' job,
    route (post_upload "job-c" Sample.alice
             (Some (mkfile "c.csv" "/uploads/c.csv" (10 * 1024)))) Sample.store
      = ((json 200 (JS.Obj [("job_id", JS.Str "job-c")]), None), s') ∧
    Job.findById "job-c" (jobs s') = Some job ∧
    Job.status job = "starting" ∧
    Job.mode job = "normal".
Proof.
  destruct (upload_creates_starting_job "job-c" Sample.alice
              (mkfile "c.csv" "/uploads/c.csv" (10 * 1024)) Sample.store)
    as (s' & job & Hr & Hj & Hst & _ & _ & Hnormal); [reflexivity|].
  exists s', job. repeat split; [exact Hr | exact Hj | exact Hst |].
  apply Hnormal. vm_compute. discriminate.
Defined.

(** ** Login *)

(** C10 fails on the code for a password that is not a string.  The route
    tests only that the password is there; [bcrypt.compare] rejects what is
    not a string, and it is reached only when a user has the email.  So for
    such a password the route answers 401 when the email is not registered
    and, through the error handler, 500 when it is. *)
Theorem non_string_password_reveals_registration
    (jwt_sign : string → string → string)
    (bcrypt_compare : string → string → bool)
    (email : string) (password : JS.value)
    (s_absent s_registered : db) (user : User.t) :
  email ≠ "" →
  JS.truthy password = true →
  (∀ p, password ≠ JS.Str p) →
  findOne User.email email (users s_absent) = None →
  findOne User.email email (users s_registered) = Some user →
  route (post_login jwt_sign bcrypt_compare (JS.Str email) password) s_absent
    = ((json 401 (JS.Obj [("error", JS.Str "Invalid email or password")]),
        None), s_absent) ∧
  ∃ details,
    route (post_login jwt_sign bcrypt_compare (JS.Str email) password)
          s_registered
      = ((json 500 (JS.Obj [("error", JS.Str "Internal server error");
                            ("details", JS.Str details)]),
          None), s_registered).
Proof.
  intros He Hp Hstr Habsent Hreg.
  unfold route, post_login, User_findOne_email, bind, read, lift. cbn.
  rewrite bool_decide_eq_false_2 by done. rewrite Hp. cbn.
  rewrite Habsent, Hreg. cbn. split; [done|].
  exists "data and hash must be strings".
  destruct password; try done. by destruct (Hstr s).
Qed.

(** The password 12345678, sent as a number, for Alice's email. *)
Lemma non_string_password_reveals_registration_witness :
  code (fst (fst (route (post_login Sample.jwt_sign Sample.bcrypt_compare
                           (JS.Str "alice@example.org") (JS.Num 12345678))
                        (mkdb [] [] [] [] [] ∅)))) = 401%Z ∧
  code (fst (fst (route (post_login Sample.jwt_sign Sample.bcrypt_compare
                           (JS.Str "alice@example.org") (JS.Num 12345678))
                        Sample.store))) = 500%Z.
Proof.
  destruct (non_string_password_reveals_registration Sample.jwt_sign
              Sample.bcrypt_compare "alice@example.org" (JS.Num 12345678)
              (mkdb [] [] [] [] [] ∅) Sample.store Sample.user_alice)
    as [Habsent [details Hreg]];
    [discriminate | reflexivity | discriminate | reflexivity | reflexivity |].
  by rewrite Habsent, Hreg.
Defined.

(** ** Ownership *)

(** C5. For a subject that is not an admin and a job that exists but belongs
    to another subject, every job-scoped endpoint (analyze, status, results,
    export, clean, cleaned, cleaning-result) answers exactly as it does when
    no job has that id: the same response (404, or status [unknown] for the
    status endpoint; never 403), no delegation started, stores untouched. *)
Theorem foreign_job_looks_absent
    (e : endpoint) (jobId : string) (user : req_user) (job : Job.t)
    (s s_absent : db) :
  role user ≠ "admin" →
  Job.findById jobId (jobs s) = Some job →
  Job.user_id job ≠ id user →
  Job.findById jobId (jobs s_absent) = None →
  ∃ r,
    route (serve e jobId user) s = ((r, None), s) ∧
    route (serve e jobId user) s_absent = ((r, None), s_absent) ∧
    code r ≠ 403%Z ∧
    (if e is GET_status
     then r = json 200 (JS.Obj [("status", JS.Str "unknown")])
     else code r = 404%Z).
Proof.
  intros Hrole Hjob Hforeign Habsent.
  assert (Hs : findOwnedJob jobId user s = (Normal None, s)).
  { unfold findOwnedJob, bind, Job_findById, read. rewrite Hjob.
    rewrite decide_False by done. by rewrite decide_True. }
  assert (Ha : findOwnedJob jobId user s_absent = (Normal None, s_absent)).
  { unfold findOwnedJob, bind, Job_findById, read. by rewrite Habsent. }
  destruct e; simpl;
    unfold route, post_analyze, get_status, get_results, get_results_export,
      post_clean, get_cleaned, get_cleaning_result, bind;
    rewrite Hs, Ha; cbn; eexists; repeat split; done.
Qed.

(** Bob asks for Alice's job, and for a job nobody has. *)
Lemma foreign_job_looks_absent_witness :
  ∃ r,
    route (serve GET_results "job-a" Sample.bob) Sample.store
      = ((r, None), Sample.store) ∧
    route (serve GET_results "job-a" Sample.bob) (mkdb [] [] [] [] [] ∅)
      = ((r, None), mkdb [] [] [] [] [] ∅) ∧
    code r ≠ 403%Z ∧ code r = 404%Z.
Proof.
  apply (foreign_job_looks_absent GET_results "job-a" Sample.bob Sample.job_a
           Sample.store (mkdb [] [] [] [] [] ∅));
    [discriminate | reflexivity | discriminate | reflexivity].
Defined.

(** ** Audit trail *)

(** C7. Every operation of the gateway (upload, any job-scoped request, job
    deletion, login, a delegation running in the background) only appends to
    the audit log, and every event it appends has a type of the closed set:
    job created, file received, operation enqueued, operation started, rule
    applied, operation completed, operation failed, job deleted. *)
Theorem audit_event_types_closed
    (PYTHON_URL : string) (worker : string → JS.value → exchange)
    (jwt_sign : string → string → string)
    (bcrypt_compare : string → string → bool)
    (op : operation) (s : db) :
  ∃ evs,
    audit_log (exec PYTHON_URL worker jwt_sign bcrypt_compare op s)
      = audit_log s ++ evs ∧
    Forall (λ ev, ∃ kind,
              Spec.kind_of (AuditEvent.event_type ev) = Some kind) evs.
Proof. exact (logs_closed_exec PYTHON_URL worker jwt_sign bcrypt_compare op s). Qed.

(** ** Delegations *)




Section DelegationProperties.
Variable PYTHON_URL : string.
Variable worker : string → JS.value → exchange.


End DelegationProperties.







(** ** Lifecycle *)




(** ** Deletion *)

Lemma filter_agree {A} (P Q : A → Prop)
    `{!∀ x, Decision (P x), !∀ x, Decision (Q x)} (l : list A) :
  (∀ x, x ∈ l → P x ↔ Q x) → filter P l = filter Q l.
Proof.
  induction l as [|a l IH]; [done|]. intros Hagree.
  assert (Ha : P a ↔ Q a) by (apply Hagree; left).
  assert (Hl : filter P l = filter Q l)
    by (apply IH; intros x Hx; apply Hagree; by right).
  rewrite !filter_cons, Hl.
  destruct (decide (P a)), (decide (Q a)); tauto.
Qed.

Lemma unique_key_inj {Doc} (key : Doc → string) (c : list Doc) d d' :
  unique key c → d ∈ c → d' ∈ c → key d = key d' → d = d'.
Proof.
  unfold unique. induction c as [|x c IH]; [by intros _ ?%elem_of_nil|].
  rewrite fmap_cons, NoDup_cons. intros [Hx Hc].
  intros [->|Hd]%elem_of_cons [->|Hd']%elem_of_cons Hk; auto.
  - exfalso. apply Hx. rewrite Hk. by apply list_elem_of_fmap_2.
  - exfalso. apply Hx. rewrite <- Hk. by apply list_elem_of_fmap_2.
Qed.


Lemma deleteMany_in_nil {Doc} (key : Doc → string) (c : list Doc) :
  deleteMany_in key [] c = c.
Proof.
  unfold deleteMany_in. induction c as [|d c IH]; [done|].
  rewrite filter_cons, IH. destruct (decide _) as [|H]; [done|].
  destruct H. apply not_elem_of_nil.
Qed.

Lemma unlink_if_set_run (p : JS.value) (s : db) :
  unlink_if_set p s = (Normal tt, with_disk (λ d, d ∖ artifact p) s).
Proof.
  unfold unlink_if_set, artifact, with_disk, ret, write.
  destruct s, p; cbn; rewrite ?difference_empty_L; try done.
  - by destruct b.
  - by destruct (negb _).
  - destruct (decide (s = "")) as [->|Hs]; cbn.
    + by rewrite difference_empty_L.
    + by rewrite bool_decide_eq_false_2.
Qed.

Lemma unlink_loop_run (found : list Job.t) (s : db) :
  for_of found (λ job,
    unlink_if_set (Job.file_path job) ;;;
    unlink_if_set (Job.cleaned_file_path job)) s
  = (Normal tt, with_disk (λ d, d ∖ ⋃ (artifacts <$> found)) s).
Proof.
  revert s. induction found as [|j found IH]; intros s.
  - destruct s. unfold with_disk. cbn. by rewrite difference_empty_L.
  - cbn [for_of]. unfold bind at 1. unfold bind at 1.
    rewrite !unlink_if_set_run, IH, fmap_cons, union_list_cons.
    destruct s. unfold with_disk, artifacts. cbn.
    by rewrite !difference_difference_l_L, (assoc_L (∪)).
Qed.

Lemma for_of_deleted ty props (ids : list string) (s : db) :
  for_of ids (λ jobId, auditLog jobId ty (JS.Obj props)) s
  = (Normal tt,
     with_audit_log
       (λ log, log ++ ((λ jobId, AuditEvent.mk jobId ty (JS.Obj props))
                         <$> ids)) s).
Proof.
  revert s. induction ids as [|i ids IH]; intros s.
  - destruct s. unfold with_audit_log. simpl. by rewrite app_nil_r.
  - cbn [for_of]. unfold bind at 1. unfold auditLog at 1, write. cbn.
    rewrite IH. destruct s. unfold with_audit_log. simpl.
    by rewrite <- app_assoc.
Qed.

(** The stores DELETE /jobs leaves, whichever way it answers. *)
Lemma delete_jobs_stores (user : req_user) (job_ids : list string) (s : db) :
  let found := filter (deletable user job_ids) (jobs s) in
  let ownedIds := Job._id <$> found in
  snd (route (delete_jobs user (Some job_ids)) s)
  = with_audit_log
      (λ log, log ++ ((λ jobId, AuditEvent.mk jobId "JOB_DELETED"
                         (JS.Obj [("deleted_by", JS.Str (id user))]))
                        <$> ownedIds))
      (with_cleaning_results (deleteMany_in CleaningResult.job_id ownedIds)
         (with_analysis_results (deleteMany_in AnalysisResult.job_id ownedIds)
            (with_jobs (deleteMany_in Job._id ownedIds)
               (with_disk (λ d, d ∖ ⋃ (artifacts <$> found)) s)))).
Proof.
  intros found ownedIds.
  assert (Hnone : found = [] →
    s = with_audit_log
          (λ log, log ++ ((λ jobId, AuditEvent.mk jobId "JOB_DELETED"
                             (JS.Obj [("deleted_by", JS.Str (id user))]))
                            <$> ownedIds))
          (with_cleaning_results
             (deleteMany_in CleaningResult.job_id ownedIds)
             (with_analysis_results
                (deleteMany_in AnalysisResult.job_id ownedIds)
                (with_jobs (deleteMany_in Job._id ownedIds)
                   (with_disk (λ d, d ∖ ⋃ (artifacts <$> found)) s))))).
  { subst ownedIds. intros ->. destruct s. rewrite !fmap_nil.
    unfold with_audit_log, with_cleaning_results, with_analysis_results,
      with_jobs, with_disk. rewrite !deleteMany_in_nil. cbn.
    by rewrite app_nil_r, difference_empty_L. }
  destruct job_ids as [|i ids].
  - apply Hnone. subst found. clear. induction (jobs s) as [|j c IH]; [done|].
    rewrite filter_cons, IH. destruct (decide _) as [H|]; [|done].
    unfold deletable in H. destruct (decide _);
      [by apply elem_of_nil in H | by destruct H as [?%elem_of_nil _]].
  - unfold route, delete_jobs, bind at 1, read. fold found. fold ownedIds.
    destruct found as [|j found'] eqn:Hfound.
    + cbn. by apply Hnone.
    + subst ownedIds. cbn [fmap list_fmap]. cbn match.
      unfold bind at 1. rewrite unlink_loop_run.
      unfold bind, write. cbn [fst snd]. rewrite for_of_deleted. reflexivity.
Qed.

(** The response of DELETE /jobs. *)
Lemma delete_jobs_reply (user : req_user) (job_ids : list string) (s : db) :
  let ownedIds := Job._id <$> filter (deletable user job_ids) (jobs s) in
  fst (route (delete_jobs user (Some job_ids)) s)
  = (match job_ids, ownedIds with
     | [], _ =>
         json 400 (JS.Obj [("error", JS.Str "job_ids array is required")])
     | _, [] =>
         json 404 (JS.Obj [("error", JS.Str "No matching jobs found")])
     | _, _ =>
         json 200 (JS.Obj [("deleted", JS.Num (Z.of_nat (length ownedIds)));
                           ("job_ids", JS.Arr (JS.Str <$> ownedIds))])
     end, None).
Proof.
  intros ownedIds. subst ownedIds. destruct job_ids as [|i ids]; [done|].
  unfold route, delete_jobs, bind at 1, read.
  destruct (filter _ (jobs s)) as [|j found']; [done|].
  cbn [fmap list_fmap]. cbn match.
  unfold bind at 1. rewrite unlink_loop_run.
  unfold bind, write. cbn [fst snd]. rewrite for_of_deleted. reflexivity.
Qed.




(** * Further properties of the code *)

(** ** [connectWithRetry] *)

Section ConnectFacts.
Variable connect : nat → option string.
Variables (retries : nat) (delayMs : Z) (message : nat → string).

Lemma retried_S from k :
  retried retries delayMs message from (S k)
  = retry_line retries (from + 1) (message from) :: Sleep delayMs
    :: retried retries delayMs message (from + 1) k.
Proof. unfold retried. cbn. by rewrite Nat.add_1_r. Qed.

Lemma connect_loop_succeeds k : ∀ fuel attempt,
  attempt + k < retries →
  retries - attempt ≤ fuel →
  (∀ i, attempt ≤ i < attempt + k → connect i = Some (message i)) →
  connect (attempt + k) = None →
  connect_loop connect retries delayMs fuel attempt
  = Some (Normal tt,
          retried retries delayMs message attempt k ++ [Log "Mongo connected"]).
Proof.
  induction k as [|k IH]; intros fuel attempt Hlt Hfuel Hfail Hok.
  - destruct fuel as [|fuel]; [lia|]. cbn [connect_loop].
    rewrite (proj2 (Nat.ltb_lt _ _)) by lia.
    rewrite Nat.add_0_r in Hok. by rewrite Hok.
  - destruct fuel as [|fuel]; [lia|]. cbn [connect_loop].
    rewrite (proj2 (Nat.ltb_lt _ _)) by lia.
    rewrite (Hfail attempt) by lia.
    rewrite (proj2 (Nat.leb_gt _ _)) by lia.
    rewrite (IH fuel (attempt + 1)); [by rewrite retried_S|lia|lia| |].
    + intros i Hi. apply Hfail. lia.
    + by replace (attempt + 1 + k) with (attempt + S k) by lia.
Qed.

Lemma connect_loop_gives_up k : ∀ fuel attempt,
  attempt + S k = retries →
  S k ≤ fuel →
  (∀ i, attempt ≤ i < retries → connect i = Some (message i)) →
  connect_loop connect retries delayMs fuel attempt
  = Some (Throw (message (retries - 1)),
          retried retries delayMs message attempt k
          ++ [retry_line retries retries (message (retries - 1))]).
Proof.
  induction k as [|k IH]; intros fuel attempt Hlast Hfuel Hfail.
  - destruct fuel as [|fuel]; [lia|]. cbn [connect_loop].
    rewrite (proj2 (Nat.ltb_lt _ _)) by lia.
    rewrite (Hfail attempt) by lia.
    rewrite (proj2 (Nat.leb_le _ _)) by lia.
    replace (attempt + 1) with retries by lia.
    by replace (retries - 1) with attempt by lia.
  - destruct fuel as [|fuel]; [lia|]. cbn [connect_loop].
    rewrite (proj2 (Nat.ltb_lt _ _)) by lia.
    rewrite (Hfail attempt) by lia.
    rewrite (proj2 (Nat.leb_gt _ _)) by lia.
    rewrite (IH fuel (attempt + 1)); [by rewrite retried_S|lia|lia|].
    intros i Hi. apply Hfail. lia.
Qed.

Lemma sleeps_retried from k :
  sleeps (retried retries delayMs message from k) = replicate k delayMs.
Proof.
  revert from. induction k as [|k IH]; intros from; [done|].
  rewrite retried_S. unfold sleeps in *. cbn. by rewrite IH.
Qed.

Lemma failures_retried from k :
  failures (retried retries delayMs message from k) = message <$> seq from k.
Proof.
  revert from. induction k as [|k IH]; intros from; [done|].
  rewrite retried_S. unfold failures in *. cbn. by rewrite IH, Nat.add_1_r.
Qed.

(** X1. When the first [k] connection attempts fail and attempt [k], still
    below [retries], succeeds, [connectWithRetry] resolves: it reported the
    [k] failures in order, slept [delayMs] after each of them and logged the
    connection last. *)
Theorem connectWithRetry_succeeds k :
  k < retries →
  (∀ i, i < k → connect i = Some (message i)) →
  connect k = None →
  ∃ evs,
    connectWithRetry connect retries delayMs = Some (Normal tt, evs) ∧
    evs = retried retries delayMs message 0 k ++ [Log "Mongo connected"] ∧
    failures evs = message <$> seq 0 k ∧
    sleeps evs = replicate k delayMs.
Proof.
  intros Hk Hfail Hok. eexists. split; [|split; [reflexivity|]].
  - unfold connectWithRetry. apply connect_loop_succeeds; try done; try lia.
    intros i Hi. apply Hfail. lia.
  - unfold failures, sleeps. rewrite !omap_app.
    pose proof (failures_retried 0 k) as Hf.
    pose proof (sleeps_retried 0 k) as Hs.
    unfold failures, sleeps in Hf, Hs. rewrite Hf, Hs. cbn.
    by rewrite !app_nil_r.
Qed.

(** X2. When every one of the [retries] attempts fails, [connectWithRetry]
    rejects with the error of the last attempt, after reporting all
    [retries] failures and sleeping [retries - 1] times: it does not sleep
    after the last failure. *)
Theorem connectWithRetry_gives_up :
  0 < retries →
  (∀ i, i < retries → connect i = Some (message i)) →
  ∃ evs,
    connectWithRetry connect retries delayMs
      = Some (Throw (message (retries - 1)), evs) ∧
    failures evs = message <$> seq 0 retries ∧
    sleeps evs = replicate (retries - 1) delayMs.
Proof.
  intros Hpos Hfail. eexists. split; [|split].
  - unfold connectWithRetry.
    apply (connect_loop_gives_up (retries - 1)); try lia.
    intros i Hi. apply Hfail. lia.
  - unfold failures. rewrite omap_app.
    pose proof (failures_retried 0 (retries - 1)) as Hf.
    unfold failures in Hf. rewrite Hf. cbn.
    replace retries with (retries - 1 + 1) at 3 by lia.
    rewrite seq_app, fmap_app. cbn. do 3 f_equal.
  - unfold sleeps. rewrite omap_app.
    pose proof (sleeps_retried 0 (retries - 1)) as Hs.
    unfold sleeps in Hs. rewrite Hs. cbn. by rewrite app_nil_r.
Qed.
End ConnectFacts.

Lemma connect_loop_bounded (connect connect' : nat → option string)
    (retries : nat) (delayMs : Z) : ∀ fuel attempt,
  (∀ i, i < retries → connect i = connect' i) →
  connect_loop connect retries delayMs fuel attempt
  = connect_loop connect' retries delayMs fuel attempt.
Proof.
  induction fuel as [|fuel IH]; intros attempt Hsame; cbn [connect_loop].
  - done.
  - destruct (attempt <? retries) eqn:Hlt; [|done].
    apply Nat.ltb_lt in Hlt. rewrite (Hsame attempt Hlt).
    destruct (connect' attempt); [|done].
    destruct (retries <=? attempt + 1); [done|]. by rewrite IH.
Qed.

(** X3. [connectWithRetry] always comes to an end, and it never makes more
    than [retries] connection attempts: what the later attempts would answer
    does not change its result.  With [retries = 0] it resolves without
    connecting at all. *)
Theorem connectWithRetry_bounded (connect connect' : nat → option string)
    (retries : nat) (delayMs : Z) :
  (∀ i, i < retries → connect i = connect' i) →
  (∃ r, connectWithRetry connect retries delayMs = Some r) ∧
  connectWithRetry connect retries delayMs
    = connectWithRetry connect' retries delayMs ∧
  (retries = 0 →
   connectWithRetry connect retries delayMs = Some (Normal tt, [])).
Proof.
  intros Hsame. split; [|split].
  - unfold connectWithRetry.
    assert (Hterm : ∀ fuel attempt, retries - attempt ≤ fuel →
              ∃ r, connect_loop connect retries delayMs fuel attempt = Some r).
    { induction fuel as [|fuel IH]; intros attempt Hfuel; cbn [connect_loop].
      - rewrite (proj2 (Nat.ltb_ge _ _)) by lia. eauto.
      - destruct (attempt <? retries) eqn:Hlt; [|eauto].
        destruct (connect attempt); [|eauto].
        destruct (retries <=? attempt + 1) eqn:Hle; [eauto|].
        apply Nat.leb_gt in Hle.
        destruct (IH (attempt + 1)) as [[c evs] ->]; [lia|]. eauto. }
    apply Hterm. lia.
  - by apply connect_loop_bounded.
  - by intros ->.
Qed.

Lemma connectWithRetry_succeeds_witness :
  ∃ evs,
    connectWithRetry (λ i, if i <? 2 then Some "ECONNREFUSED" else None)
                     5 2000 = Some (Normal tt, evs) ∧
    failures evs = ["ECONNREFUSED"; "ECONNREFUSED"] ∧
    sleeps evs = [2000%Z; 2000%Z].
Proof.
  destruct (connectWithRetry_succeeds
              (λ i, if i <? 2 then Some "ECONNREFUSED" else None)
              5 2000 (λ _, "ECONNREFUSED") 2)
    as (evs & Hrun & _ & Hf & Hs).
  - lia.
  - intros i Hi. by rewrite (proj2 (Nat.ltb_lt _ _) Hi).
  - reflexivity.
  - exists evs. split; [exact Hrun|]. split; [exact Hf | exact Hs].
Defined.

Lemma connectWithRetry_gives_up_witness :
  ∃ evs,
    connectWithRetry (λ _, Some "ECONNREFUSED") 5 2000
      = Some (Throw "ECONNREFUSED", evs) ∧
    length (failures evs) = 5 ∧
    sleeps evs = replicate 4 2000%Z.
Proof.
  destruct (connectWithRetry_gives_up (λ _, Some "ECONNREFUSED") 5 2000
              (λ _, "ECONNREFUSED"))
    as (evs & Hrun & Hf & Hs).
  - lia.
  - reflexivity.
  - exists evs. split; [exact Hrun|]. split; [by rewrite Hf | exact Hs].
Defined.

Lemma connectWithRetry_bounded_witness :
  connectWithRetry (λ i, if i <? 5 then Some "down" else None) 5 2000
  = connectWithRetry (λ _, Some "down") 5 2000.
Proof.
  apply (connectWithRetry_bounded
           (λ i, if i <? 5 then Some "down" else None) (λ _, Some "down")
           5 2000).
  intros i Hi. by rewrite (proj2 (Nat.ltb_lt _ _) Hi).
Defined.

(** ** Ownership on every job-scoped route *)

Lemma findOwnedJob_granted jobId user job s :
  Job.findById jobId (jobs s) = Some job →
  role user = "admin" ∨ Job.user_id job = id user →
  findOwnedJob jobId user s = (Normal (Some job), s).
Proof.
  intros Hj Hu. unfold findOwnedJob, bind, Job_findById, read. rewrite Hj.
  destruct (decide (role user = "admin")); [done|].
  destruct Hu as [|Hu]; [done|]. by rewrite decide_False by (by intros []).
Qed.

Lemma findOwnedJob_denied jobId user s :
  (Job.findById jobId (jobs s) = None ∨
   ∃ job, Job.findById jobId (jobs s) = Some job ∧
          role user ≠ "admin" ∧ Job.user_id job ≠ id user) →
  findOwnedJob jobId user s = (Normal None, s).
Proof.
  unfold findOwnedJob, bind, Job_findById, read.
  intros [->|(job & -> & Hr & Hu)]; [done|].
  rewrite decide_False by done. by rewrite decide_True.
Qed.

(** X4. An admin gets from every job-scoped route (the seven endpoints and
    the two raw-data proxies) exactly what the owner of the job gets: the
    same response, the same delegation started, the same stores. *)
Theorem admin_sees_what_owner_sees
    (PYTHON_URL : string) (raw_worker : string → JS.value → proxy_outcome)
    (e : endpoint) (endpoint : string) (jobId : string)
    (admin owner : req_user) (job : Job.t) (s : db) :
  role admin = "admin" →
  Job.findById jobId (jobs s) = Some job →
  Job.user_id job = id owner →
  route (serve e jobId admin) s = route (serve e jobId owner) s ∧
  route (get_raw_from PYTHON_URL raw_worker endpoint jobId admin) s
    = route (get_raw_from PYTHON_URL raw_worker endpoint jobId owner) s.
Proof.
  intros Hadmin Hj Howner.
  pose proof (findOwnedJob_granted jobId admin job s Hj (or_introl Hadmin))
    as Ha.
  pose proof (findOwnedJob_granted jobId owner job s Hj (or_intror Howner))
    as Ho.
  split.
  - destruct e; simpl;
      unfold route, post_analyze, get_status, get_results,
        get_results_export, post_clean, get_cleaned, get_cleaning_result,
        bind;
      by rewrite Ha, Ho.
  - unfold route, get_raw_from, bind. by rewrite Ha, Ho.
Qed.

Lemma admin_sees_what_owner_sees_witness :
  route (serve GET_results "job-b" (mkuser "u-root" "admin")) Sample.store
  = route (serve GET_results "job-b" Sample.bob) Sample.store.
Proof.
  apply (admin_sees_what_owner_sees Sample.url (λ _ _, Rejected None "down")
           GET_results "/internal/raw" "job-b" (mkuser "u-root" "admin")
           Sample.bob Sample.job_b Sample.store);
    reflexivity.
Defined.

(** X5. The raw-data proxies never change a store and never start a
    delegation.  For a job that does not exist, belongs to another subject
    or has no file they answer 404 without regard to the worker; a refused
    connection gives 503, a worker status that is not 2xx gives 502, and a
    worker body with an [error] gives 404 with that error as detail. *)
Theorem raw_proxy_is_read_only
    (PYTHON_URL : string) (raw_worker : string → JS.value → proxy_outcome)
    (endpoint : string) (jobId : string) (user : req_user) (s : db) :
  let answer := route (get_raw_from PYTHON_URL raw_worker endpoint jobId user) s
  in
  let no_data :=
    json 404 (JS.Obj [("detail", JS.Str "No data found for this job.")]) in
  snd answer = s ∧
  snd (fst answer) = None ∧
  (findOwnedJob jobId user s = (Normal None, s) → fst (fst answer) = no_data) ∧
  (∀ job, findOwnedJob jobId user s = (Normal (Some job), s) →
     if JS.truthy (Job.file_path job) then
       match raw_worker (PYTHON_URL +:+ endpoint)
                        (JS.Obj [("file_path", Job.file_path job)]) with
       | Rejected code _ =>
           code = Some "ECONNREFUSED" →
           fst (fst answer)
             = json 503 (JS.Obj [("detail",
                                  JS.Str "Python worker is not reachable")])
       | Answered status b =>
           if ok status then
             ∀ data, b = Json data →
               JS.nullish data = false →
               fst (fst answer)
                 = if JS.truthy (JS.prop data "error")
                   then json 404 (JS.Obj [("detail", JS.prop data "error")])
                   else json 200 data
           else
             fst (fst answer)
               = json 502 (JS.Obj [("detail", JS.Str "Python worker error")])
       end
     else fst (fst answer) = no_data).
Proof.
  intros answer no_data. subst answer.
  unfold route, get_raw_from, bind.
  assert (Hfind : ∃ found, findOwnedJob jobId user s = (Normal found, s)).
  { destruct (Job.findById jobId (jobs s)) as [job|] eqn:Hj.
    - destruct (decide (role user = "admin")) as [Ha|Ha].
      + exists (Some job). apply findOwnedJob_granted; auto.
      + destruct (decide (Job.user_id job = id user)) as [Hu|Hu].
        * exists (Some job). apply findOwnedJob_granted; auto.
        * exists None. apply findOwnedJob_denied. right. eauto.
    - exists None. apply findOwnedJob_denied. by left. }
  destruct Hfind as [found Hfind]. rewrite Hfind.
  destruct found as [job|].
  - split; [|split; [|split]].
    + destruct (JS.truthy (Job.file_path job)); [|done]. cbn.
      destruct (raw_worker _ _) as [code m|st [data|m]]; cbn.
      * by destruct (decide _).
      * destruct (ok st); [|done]. cbn. unfold lift, JS.member.
        destruct (JS.nullish data); [done|]. cbn.
        by destruct (JS.truthy _).
      * by destruct (ok st).
    + destruct (JS.truthy (Job.file_path job)); [|done]. cbn.
      destruct (raw_worker _ _) as [code m|st [data|m]]; cbn.
      * by destruct (decide _).
      * destruct (ok st); [|done]. cbn. unfold lift, JS.member.
        destruct (JS.nullish data); [done|]. cbn.
        by destruct (JS.truthy _).
      * by destruct (ok st).
    + discriminate.
    + intros job' [= <-].
      destruct (JS.truthy (Job.file_path job)); [|done]. cbn.
      destruct (raw_worker _ _) as [code m|st b]; cbn.
      * intros ->. by rewrite decide_True.
      * destruct (ok st); [|done]. cbn. intros data -> Hdata.
        unfold lift, JS.member. rewrite Hdata. cbn.
        by destruct (JS.truthy _).
  - split; [done|]. split; [done|]. split; [done|]. discriminate.
Qed.

Lemma raw_proxy_is_read_only_witness :
  fst (fst (route (get_raw_from Sample.url (λ _ _, Rejected None "down")
                                "/internal/raw" "job-a" Sample.bob)
                  Sample.store))
  = json 404 (JS.Obj [("detail", JS.Str "No data found for this job.")]).
Proof.
  destruct (raw_proxy_is_read_only Sample.url (λ _ _, Rejected None "down")
              "/internal/raw" "job-a" Sample.bob Sample.store)
    as (_ & _ & Hdenied & _).
  apply Hdenied. reflexivity.
Defined.

(** ** What a delegation or a request leaves alone *)

#[local] Instance keeps_identity_refl : Reflexive keeps_identity.
Proof. by intros s. Qed.

#[local] Instance keeps_identity_trans : Transitive keeps_identity.
Proof.
  intros s1 s2 s3 (H1 & H2 & H3) (H4 & H5 & H6).
  repeat split; congruence.
Qed.

Lemma fmap_updateOne_same {Doc B} (key : Doc → string) (g : Doc → B) k f c :
  (∀ d, g (f d) = g d) → g <$> updateOne key k f c = g <$> c.
Proof.
  intros Hf. induction c as [|x c IH]; [done|]. cbn [updateOne].
  destruct (decide (key x = k)); rewrite !fmap_cons; by rewrite ?Hf, ?IH.
Qed.

Lemma keeps_identity_frame (f : db → db) :
  (∀ s, jobs (f s) = jobs s ∧ users (f s) = users s ∧ disk (f s) = disk s) →
  steps keeps_identity (write f).
Proof.
  intros Hf. apply steps_write. intros s. unfold keeps_identity.
  destruct (Hf s) as (-> & -> & ->). done.
Qed.

Lemma keeps_identity_updateOne jobId (f : Job.t → Job.t) :
  (∀ j, identity_of (f j) = identity_of j) →
  steps keeps_identity (Job_updateOne jobId f).
Proof.
  intros Hf. apply steps_write. intros s. unfold keeps_identity. cbn.
  by rewrite fmap_updateOne_same.
Qed.

Ltac identity_kept :=
  repeat step;
  try (apply keeps_identity_updateOne; intros []; reflexivity);
  try (apply keeps_identity_frame; intros []; repeat split; reflexivity).

Lemma keeps_identity_findOwnedJob jobId user :
  steps keeps_identity (findOwnedJob jobId user).
Proof. unfold findOwnedJob, Job_findById. identity_kept. Qed.

Lemma keeps_identity_run_task PYTHON_URL worker t :
  steps keeps_identity (run_task PYTHON_URL worker t).
Proof.
  destruct t as [jobId|jobId opts]; simpl.
  - unfold runAnalysis, runAnalysis_begin, runAnalysis_try,
      runAnalysis_catch, post_json, Job_findById,
      AnalysisResult_replaceOne, auditLog.
    identity_kept.
  - unfold runCleaning, runCleaning_begin, runCleaning_try,
      runCleaning_catch, post_json, Job_set_cleaned, Job_findById,
      CleaningResult_replaceOne, auditLog.
    identity_kept.
Qed.

Lemma keeps_identity_serve e jobId user :
  steps keeps_identity (serve e jobId user).
Proof.
  destruct e; simpl;
    unfold post_analyze, get_status, get_results, get_results_export,
      post_clean, get_cleaned, get_cleaning_result,
      AnalysisResult_findOne, CleaningResult_findOne, auditLog;
    (apply steps_bind;
     [apply _ | apply keeps_identity_findOwnedJob | intros ?]);
    identity_kept.
Qed.

Lemma post_upload_stores jobId user file s :
  let s' := snd (route (post_upload jobId user file) s) in
  match file with
  | None => s' = s
  | Some f =>
      let onDisk := with_disk (λ d, d ∪ {[path f]}) s in
      match Job.findById jobId (jobs s) with
      | Some _ => s' = onDisk
      | None =>
          ∃ job evs,
            Job._id job = jobId ∧ Job.user_id job = id user ∧
            Job.status job = "starting" ∧
            s' = with_audit_log (λ log, log ++ evs)
                   (with_jobs (λ c, c ++ [job]) onDisk)
      end
  end.
Proof.
  destruct file as [f|]; cbn; [|done].
  unfold route, post_upload, bind, multer_single, write, Job_create,
    Job_findById, read. cbn.
  destruct (Job.findById jobId (jobs s)); cbn; [done|].
  eexists _, [_; _]. split; [|split; [|split]]; last first.
  - destruct s. unfold with_audit_log, with_jobs, with_disk. cbn.
    rewrite <- app_assoc. reflexivity.
  - reflexivity.
  - reflexivity.
  - reflexivity.
Qed.

Lemma keeps_identity_exec PYTHON_URL worker jwt_sign bcrypt_compare op s :
  match op with
  | Upload _ _ _ | DeleteJobs _ _ => True
  | _ => keeps_identity s
           (exec PYTHON_URL worker jwt_sign bcrypt_compare op s)
  end.
Proof.
  destruct op as [jobId user file|e jobId user|user ids|email pw|t];
    try done; cbn [exec].
  - apply steps_route, keeps_identity_serve.
  - apply steps_route. unfold post_login. identity_kept.
  - apply keeps_identity_run_task.
Qed.

Lemma keeps_identity_ids s s' :
  keeps_identity s s' → Job._id <$> jobs s' = Job._id <$> jobs s.
Proof.
  intros (Hid & _).
  assert (Hfst : ∀ c : list Job.t,
            Job._id <$> c = (λ i, i.1.1.1.1) <$> (identity_of <$> c)).
  { intros c. rewrite <- list_fmap_compose. by apply list_fmap_ext. }
  by rewrite !Hfst, Hid.
Qed.

(** X6. Owner, mode, file name and source path of a job never change, and
    only an upload creates a job: after any operation every stored job is
    either the job the upload just created for its caller, or a job that was
    stored before with the same id, owner, mode, file name and source path.
    A job-scoped request, a login and a delegation moreover create and
    delete no job and leave the users and the disk untouched. *)
Theorem job_identity_is_immutable
    (PYTHON_URL : string) (worker : string → JS.value → exchange)
    (jwt_sign : string → string → string)
    (bcrypt_compare : string → string → bool)
    (op : operation) (s : db) :
  let s' := exec PYTHON_URL worker jwt_sign bcrypt_compare op s in
  (∀ j', j' ∈ jobs s' →
     (∃ j, j ∈ jobs s ∧ identity_of j' = identity_of j) ∨
     (∃ jobId user file, op = Upload jobId user (Some file) ∧
        Job._id j' = jobId ∧ Job.user_id j' = id user)) ∧
  (match op with
   | Upload _ _ _ | DeleteJobs _ _ => True
   | _ => keeps_identity s s'
   end).
Proof.
  intros s'.
  assert (Hkept : keeps_identity s s' →
            ∀ j', j' ∈ jobs s' →
              ∃ j, j ∈ jobs s ∧ identity_of j' = identity_of j).
  { intros (Hid & _) j' Hj'.
    apply (list_elem_of_fmap_2 identity_of) in Hj'. rewrite Hid in Hj'.
    apply list_elem_of_fmap in Hj' as (j & Heq & Hj). eauto. }
  subst s'. destruct op as [jobId user file|e jobId user|user ids|email pw|t].
  - split; [|done]. cbn [exec].
    pose proof (post_upload_stores jobId user file s) as Hup. cbv zeta in Hup.
    destruct file as [f|]; [|rewrite Hup; eauto].
    destruct (Job.findById jobId (jobs s)).
    + rewrite Hup. cbn. eauto.
    + destruct Hup as (job & evs & Hid & Hu & _ & ->). cbn.
      intros j' [Hj' | ->%list_elem_of_singleton]%elem_of_app; [eauto|].
      right. eauto 10.
  - pose proof (keeps_identity_exec PYTHON_URL worker jwt_sign bcrypt_compare
                  (JobRequest e jobId user) s) as Hk.
    split; [left; by apply Hkept | exact Hk].
  - split; [|done]. cbn [exec]. destruct ids as [ids|]; [|eauto].
    rewrite delete_jobs_stores. cbn.
    intros j' [_ Hj']%list_elem_of_filter. eauto.
  - pose proof (keeps_identity_exec PYTHON_URL worker jwt_sign bcrypt_compare
                  (Login email pw) s) as Hk.
    split; [left; by apply Hkept | exact Hk].
  - pose proof (keeps_identity_exec PYTHON_URL worker jwt_sign bcrypt_compare
                  (Run t) s) as Hk.
    split; [left; by apply Hkept | exact Hk].
Qed.

Lemma job_identity_is_immutable_witness :
  let s' := exec Sample.url Sample.worker_timeout Sample.jwt_sign
                 Sample.bcrypt_compare (Run (AnalysisTask "job-b"))
                 Sample.store in
  (∃ j, j ∈ jobs Sample.store ∧
        identity_of (Job.set_status "failed" Sample.job_b) = identity_of j) ∧
  users s' = users Sample.store.
Proof.
  destruct (job_identity_is_immutable Sample.url Sample.worker_timeout
              Sample.jwt_sign Sample.bcrypt_compare
              (Run (AnalysisTask "job-b")) Sample.store)
    as [Hjobs (_ & Husers & _)].
  split; [|exact Husers].
  destruct (Hjobs (Job.set_status "failed" Sample.job_b))
    as [Hold|(? & ? & ? & Hop & _)]; [|exact Hold|discriminate Hop].
  vm_compute. repeat constructor.
Defined.

Section TouchesOnly.
Variable jobId : string.

#[local] Instance touches_only_refl : Reflexive (touches_only jobId).
Proof.
  intros s. split; [done|]. exists []. unfold appended.
  by rewrite app_nil_r.
Qed.

#[local] Instance touches_only_trans : Transitive (touches_only jobId).
Proof.
  intros s1 s2 s3 [H1 (e1 & L1 & F1)] [H2 (e2 & L2 & F2)]. split.
  - intros other Hne. destruct (H2 other Hne) as (-> & -> & ->).
    by apply H1.
  - exists (e1 ++ e2). unfold appended in *.
    split; [by rewrite L2, L1, app_assoc | by apply Forall_app].
Qed.

Lemma touches_only_frame (f : db → db) :
  (∀ s, jobs (f s) = jobs s ∧ analysis_results (f s) = analysis_results s ∧
        cleaning_results (f s) = cleaning_results s ∧
        audit_log (f s) = audit_log s) →
  steps (touches_only jobId) (write f).
Proof.
  intros Hf. apply steps_write. intros s.
  destruct (Hf s) as (Hj & Ha & Hc & Hl). split.
  - intros other _. by rewrite Hj, Ha, Hc.
  - exists []. unfold appended. by rewrite Hl, app_nil_r.
Qed.

Lemma touches_only_updateOne (f : Job.t → Job.t) :
  (∀ j, Job._id (f j) = Job._id j) →
  steps (touches_only jobId) (Job_updateOne jobId f).
Proof.
  intros Hf. apply steps_write. intros s. split.
  - intros other Hne. cbn. split; [|done]. unfold Job.findById.
    apply findOne_updateOne_ne; [done|]. intros d <-. apply Hf.
  - exists []. unfold appended. cbn. by rewrite app_nil_r.
Qed.

Lemma touches_only_analysis result type :
  steps (touches_only jobId)
    (AnalysisResult_replaceOne jobId (AnalysisResult.mk jobId result type)).
Proof.
  apply steps_write. intros s. split.
  - intros other Hne. cbn. split; [done|]. split; [|done].
    by apply findOne_upsert_ne.
  - exists []. unfold appended. cbn. by rewrite app_nil_r.
Qed.

Lemma touches_only_cleaning mode rules summary :
  steps (touches_only jobId)
    (CleaningResult_replaceOne jobId
       (CleaningResult.mk jobId mode rules summary)).
Proof.
  apply steps_write. intros s. split.
  - intros other Hne. cbn. split; [done|]. split; [done|].
    by apply findOne_upsert_ne.
  - exists []. unfold appended. cbn. by rewrite app_nil_r.
Qed.

Lemma touches_only_auditLog ty payload :
  steps (touches_only jobId) (auditLog jobId ty payload).
Proof.
  unfold auditLog. destruct (Pg.jsonb_in _).
  - apply steps_write. intros s. split; [done|].
    eexists. split; [reflexivity|]. by apply Forall_singleton.
  - apply steps_throw. apply _.
Qed.
End TouchesOnly.

Ltac only_this_job :=
  repeat step;
  try apply touches_only_auditLog;
  try apply touches_only_analysis;
  try apply touches_only_cleaning;
  try (apply touches_only_updateOne; intros []; reflexivity);
  try (apply touches_only_frame; intros []; repeat split; reflexivity).

(** X7. A delegation touches nothing but its own job: every other job and
    every analysis or cleaning record of another job is exactly as before,
    and every audit event it appends carries the id of its job. *)
Theorem delegation_touches_only_its_job
    (PYTHON_URL : string) (worker : string → JS.value → exchange)
    (t : task) (s : db) :
  let s' := snd (run_task PYTHON_URL worker t s) in
  (∀ other, other ≠ task_job t →
     Job.findById other (jobs s') = Job.findById other (jobs s) ∧
     findOne AnalysisResult.job_id other (analysis_results s')
       = findOne AnalysisResult.job_id other (analysis_results s) ∧
     findOne CleaningResult.job_id other (cleaning_results s')
       = findOne CleaningResult.job_id other (cleaning_results s)) ∧
  ∃ evs, audit_log s' = audit_log s ++ evs ∧
         Forall (λ ev, AuditEvent.job_id ev = task_job t) evs.
Proof.
  assert (Hsteps : steps (touches_only (task_job t))
                         (run_task PYTHON_URL worker t)).
  { destruct t as [jobId|jobId opts]; simpl.
    - unfold runAnalysis, runAnalysis_begin, runAnalysis_try,
        runAnalysis_catch, post_json, Job_findById.
      pose proof (touches_only_refl jobId).
      pose proof (touches_only_trans jobId).
      only_this_job.
    - unfold runCleaning, runCleaning_begin, runCleaning_try,
        runCleaning_catch, post_json, Job_set_cleaned, Job_findById.
      pose proof (touches_only_refl jobId).
      pose proof (touches_only_trans jobId).
      only_this_job. }
  exact (Hsteps s).
Qed.

Lemma delegation_touches_only_its_job_witness :
  Job.findById "job-a"
    (jobs (snd (run_task Sample.url Sample.worker_full
                         (CleaningTask "job-b" Sample.auto) Sample.store)))
  = Some Sample.job_a.
Proof.
  destruct (delegation_touches_only_its_job Sample.url Sample.worker_full
              (CleaningTask "job-b" Sample.auto) Sample.store) as [Hframe _].
  destruct (Hframe "job-a") as (Hjob & _); [discriminate|].
  exact Hjob.
Defined.

(** ** The primary key of the job store *)

#[local] Instance keeps_job_ids_refl : Reflexive keeps_job_ids.
Proof. intros s Hs. exact Hs. Qed.

#[local] Instance keeps_job_ids_trans : Transitive keeps_job_ids.
Proof. intros s1 s2 s3 H1 H2 H. by apply H2, H1. Qed.

(** X8. No operation of the gateway breaks the uniqueness of job ids: an
    upload under an id already in use is turned down by the store (the route
    answers 500), a delegation or a request rewrites jobs in place, and a
    deletion only removes. *)
Theorem job_ids_stay_unique
    (PYTHON_URL : string) (worker : string → JS.value → exchange)
    (jwt_sign : string → string → string)
    (bcrypt_compare : string → string → bool)
    (op : operation) (s : db) :
  unique Job._id (jobs s) →
  unique Job._id
    (jobs (exec PYTHON_URL worker jwt_sign bcrypt_compare op s)) ∧
  (∀ jobId user file job,
     op = Upload jobId user (Some file) →
     Job.findById jobId (jobs s) = Some job →
     code (fst (fst (route (post_upload jobId user (Some file)) s))) = 500%Z ∧
     jobs (exec PYTHON_URL worker jwt_sign bcrypt_compare op s) = jobs s ∧
     audit_log (exec PYTHON_URL worker jwt_sign bcrypt_compare op s)
       = audit_log s).
Proof.
  intros Hs. split.
  - pose proof (keeps_identity_exec PYTHON_URL worker jwt_sign
                  bcrypt_compare op s) as Hids.
    destruct op as [jobId user file|e jobId user|user ids|email pw|t];
      try (unfold unique; rewrite (keeps_identity_ids _ _ Hids); exact Hs).
    + cbn [exec].
      pose proof (post_upload_stores jobId user file s) as Hup.
      cbv zeta in Hup. destruct file as [f|]; [|by rewrite Hup].
      destruct (Job.findById jobId (jobs s)) eqn:Hfresh; [by rewrite Hup|].
      destruct Hup as (job & evs & Hid & _ & _ & ->). cbn.
      unfold unique. rewrite fmap_app. apply NoDup_app.
      split; [exact Hs|]. split; [|apply NoDup_singleton].
      intros x Hx ->%list_elem_of_singleton. cbn in Hx. rewrite Hid in Hx.
      by apply (findOne_None Job._id) in Hfresh.
    + cbn [exec]. destruct ids as [ids|]; [|done].
      rewrite delete_jobs_stores. cbn. by apply unique_deleteMany_in.
  - intros jobId user file job -> Hused. cbn [exec].
    pose proof (post_upload_stores jobId user (Some file) s) as Hup.
    cbv zeta in Hup. rewrite Hused in Hup. rewrite Hup. cbn.
    split; [|done].
    unfold route, post_upload, bind, multer_single, write, Job_create,
      Job_findById, read. cbn. by rewrite Hused.
Qed.

Lemma job_ids_stay_unique_witness :
  unique Job._id
    (jobs (exec Sample.url Sample.worker_full Sample.jwt_sign
                Sample.bcrypt_compare
                (Upload "job-a" Sample.bob
                        (Some (mkfile "x.csv" "/uploads/x.csv" 10)))
                Sample.store)) ∧
  jobs (exec Sample.url Sample.worker_full Sample.jwt_sign
             Sample.bcrypt_compare
             (Upload "job-a" Sample.bob
                     (Some (mkfile "x.csv" "/uploads/x.csv" 10)))
             Sample.store) = jobs Sample.store.
Proof.
  destruct (job_ids_stay_unique Sample.url Sample.worker_full Sample.jwt_sign
              Sample.bcrypt_compare
              (Upload "job-a" Sample.bob
                      (Some (mkfile "x.csv" "/uploads/x.csv" 10)))
              Sample.store) as [Huniq Hused].
  - apply (bool_decide_unpack _). vm_compute. exact I.
  - split; [exact Huniq|].
    exact (proj1 (proj2 (Hused _ _ _ Sample.job_a eq_refl eq_refl))).
Defined.

(** ** Delegations and the routes that read their outcome *)

Lemma identity_of_owner (j j' : Job.t) :
  identity_of j' = identity_of j →
  Job._id j' = Job._id j ∧ Job.user_id j' = Job.user_id j.
Proof. unfold identity_of. by intros [= -> -> _ _ _]. Qed.

Lemma findById_identity (c c' : list Job.t) jobId j :
  identity_of <$> c' = identity_of <$> c →
  Job.findById jobId c = Some j →
  ∃ j', Job.findById jobId c' = Some j' ∧ identity_of j' = identity_of j.
Proof.
  unfold Job.findById. revert c'.
  induction c as [|x c IH]; intros [|x' c'] Hid; try done.
  rewrite !fmap_cons in Hid.
  assert (Hx : identity_of x' = identity_of x) by congruence.
  assert (Hc : identity_of <$> c' = identity_of <$> c) by congruence.
  rewrite !findOne_cons.
  assert (Hk : Job._id x' = Job._id x)
    by (by destruct (identity_of_owner x x' Hx)).
  rewrite Hk. destruct (decide (Job._id x = jobId)).
  - intros [= <-]. eauto.
  - by apply IH.
Qed.

(** A delegation leaves its job in place, with its owner and its file. *)
Lemma run_task_keeps_job PYTHON_URL worker t jobId job s :
  Job.findById jobId (jobs s) = Some job →
  ∃ job', Job.findById jobId (jobs (snd (run_task PYTHON_URL worker t s)))
            = Some job' ∧
          identity_of job' = identity_of job ∧
          disk (snd (run_task PYTHON_URL worker t s)) = disk s.
Proof.
  intros Hj.
  destruct (keeps_identity_run_task PYTHON_URL worker t s) as (Hid & _ & Hd).
  destruct (findById_identity _ _ jobId job Hid Hj) as (job' & ? & ?).
  eauto.
Qed.

(** X9. A delegation whose job does not exist (any more), or has no file,
    rejects with [Job/file not found] before it writes anything: no status,
    no audit event, no result, whatever the worker would have answered. *)
Theorem delegation_without_job_writes_nothing
    (PYTHON_URL : string) (worker : string → JS.value → exchange)
    (t : task) (s : db) :
  (Job.findById (task_job t) (jobs s) = None ∨
   ∃ job, Job.findById (task_job t) (jobs s) = Some job ∧
          JS.truthy (Job.file_path job) = false) →
  run_task PYTHON_URL worker t s = (Throw "Job/file not found", s).
Proof.
  intros Hmissing.
  destruct t as [jobId|jobId opts]; cbn in *;
    unfold runAnalysis, runAnalysis_begin, runCleaning, runCleaning_begin,
      bind, Job_findById, read;
    destruct Hmissing as [->|(job & -> & ->)]; done.
Qed.

Lemma delegation_without_job_writes_nothing_witness :
  run_task Sample.url Sample.worker_full (AnalysisTask "job-z") Sample.store
  = (Throw "Job/file not found", Sample.store).
Proof.
  apply (delegation_without_job_writes_nothing Sample.url Sample.worker_full
           (AnalysisTask "job-z") Sample.store).
  left. reflexivity.
Defined.





(** X12. What a resolved cleaning stored is what the read routes serve: the
    owner (or an admin) reads status [cleaned]; GET /cleaning-result returns
    the record as Mongoose stored it (the mode as a string, the rule list as
    an array, rule list and summary without their empty objects); and
    GET /cleaned goes by the path the job has now, which is the worker's
    [cleaned_file_path] cast to a string, or the path the job had before
    when the worker named none: it streams that file as an attachment when
    the path exists on disk, answers [File missing on disk] when it does
    not, and [Cleaned file not found] when there is no such path. *)
Theorem resolved_cleaning_is_served
    (PYTHON_URL : string) (worker : string → JS.value → exchange)
    (jobId : string) (opts : cleaningOptions) (user : req_user)
    (job : Job.t) (s : db) :
  Job.findById jobId (jobs s) = Some job →
  JS.truthy (Job.file_path job) = true →
  role user = "admin" ∨ Job.user_id job = id user →
  fst (runCleaning PYTHON_URL worker jobId opts s) = Normal tt →
  let s' := snd (runCleaning PYTHON_URL worker jobId opts s) in
  ∃ st data cast,
    fetch CLEANING_TIMEOUT_MS
      (worker (PYTHON_URL +:+ "/internal/clean")
              (cleaning_request jobId job opts))
      = Responded st (Json data) ∧
    Mongoose.castString "cleaned_file_path" (JS.prop data "cleaned_file_path")
      = Normal cast ∧
    fst (route (get_status jobId user) s')
      = (json 200 (JS.Obj [("status", JS.Str "cleaned")]), None) ∧
    fst (route (get_cleaning_result jobId user) s')
      = (json 200
           (JS.Obj [("job_id", JS.Str jobId);
                    ("mode",
                     Mongoose.string_path "mode" (JS.Str "auto")
                       (JS.or (JS.prop data "mode")
                              (JS.or (opt_mode opts) (JS.Str "auto"))));
                    ("rules_applied",
                     Mongoose.minimize
                       (Mongoose.array_path (JS.prop data "rules_applied")));
                    ("summary",
                     Mongoose.minimize (JS.prop data "summary"))]), None) ∧
    fst (route (get_cleaned jobId user) s')
      = (let p := match cast with
                  | JS.Undefined => Job.cleaned_file_path job
                  | _ => cast
                  end in
         if JS.truthy p then
           if existsSync p (disk s) then
             mkres 200
               [("Content-Type", "text/csv");
                ("Content-Disposition",
                 "attachment; filename=" +:+ dquote +:+ jobId
                 +:+ "-cleaned.csv" +:+ dquote)]
               (FileStream (JS.to_string p))
           else json 404 (JS.Obj [("error", JS.Str "File missing on disk")])
         else json 404 (JS.Obj [("error", JS.Str "Cleaned file not found")]),
         None).
Proof.
  intros Hj Hp Huser Hfst s'.
  pose proof (surjective_pairing (runCleaning PYTHON_URL worker jobId opts s))
    as Hrun.
  rewrite Hfst in Hrun. fold s' in Hrun.
  destruct (runCleaning_return PYTHON_URL worker jobId opts job s _ _
              Hj Hp Hrun)
    as (st & data & rules & rows & cast & Hw & _ & _ & _ & Hcast & Hst
        & Hpath & _ & Hres).
  destruct (run_task_keeps_job PYTHON_URL worker (CleaningTask jobId opts)
              jobId job s Hj) as (job' & Hj' & Hid & Hdisk).
  cbn in Hj', Hdisk. fold s' in Hj', Hdisk.
  assert (Huser' : role user = "admin" ∨ Job.user_id job' = id user).
  { destruct Huser as [|Hu]; [by left|right]. rewrite <- Hu.
    by destruct (identity_of_owner job job' Hid). }
  pose proof (findOwnedJob_granted jobId user job' s' Hj' Huser') as Hfind.
  unfold status_of in Hst. rewrite Hj' in Hst, Hpath.
  injection Hst as Hst. injection Hpath as Hpath.
  exists st, data, cast. split; [exact Hw|]. split; [exact Hcast|].
  repeat split.
  - unfold route, get_status, bind. rewrite Hfind. cbn. by rewrite Hst.
  - unfold route, get_cleaning_result, bind. rewrite Hfind.
    unfold CleaningResult_findOne, read. by rewrite Hres.
  - unfold route, get_cleaned, bind. rewrite Hfind.
    unfold cleaned_path. rewrite Hpath. cbv zeta.
    set (p := match cast with
              | JS.Undefined => Job.cleaned_file_path job
              | _ => cast
              end).
    destruct (JS.truthy p); [|done].
    cbn. rewrite Hdisk. by destruct (existsSync _ _).
Qed.

(** The worker names no path for a job that has one from an earlier
    cleaning: the earlier file is what GET /cleaned streams. *)
Lemma resolved_cleaning_is_served_witness :
  fst (route (get_cleaned "job-b" Sample.bob)
             (snd (runCleaning Sample.url Sample.worker_pathless "job-b"
                               Sample.auto Sample.store)))
  = (mkres 200
       [("Content-Type", "text/csv");
        ("Content-Disposition",
         "attachment; filename=" +:+ dquote +:+ "job-b-cleaned.csv"
         +:+ dquote)]
       (FileStream "/uploads/b-cleaned.csv"), None).
Proof.
  destruct (resolved_cleaning_is_served Sample.url Sample.worker_pathless
              "job-b" Sample.auto Sample.bob Sample.job_b Sample.store)
    as (st & data & cast & Hw & Hcast & _ & _ & Hcleaned);
    [reflexivity | reflexivity | right; reflexivity | reflexivity |].
  injection Hw as _ <-. injection Hcast as <-. exact Hcleaned.
Defined.

(** ** Deletion, once more *)

Lemma serve_absent (e : endpoint) (jobId : string) (user : req_user) (s : db) :
  Job.findById jobId (jobs s) = None →
  ∃ r, route (serve e jobId user) s = ((r, None), s) ∧
       (if e is GET_status
        then r = json 200 (JS.Obj [("status", JS.Str "unknown")])
        else code r = 404%Z).
Proof.
  intros Habsent.
  pose proof (findOwnedJob_denied jobId user s (or_introl Habsent)) as Hfind.
  destruct e; simpl;
    unfold route, post_analyze, get_status, get_results, get_results_export,
      post_clean, get_cleaned, get_cleaning_result, bind;
    rewrite Hfind; cbn; eauto.
Qed.

Lemma findOne_deleteMany_in {Doc} (key : Doc → string) ks k (c : list Doc) :
  k ∈ ks → findOne key k (deleteMany_in key ks c) = None.
Proof.
  intros Hk. apply findOne_None.
  intros (d & -> & [Hd _]%list_elem_of_filter)%list_elem_of_fmap. done.
Qed.

Lemma filter_none {A} (P : A → Prop) `{!∀ x, Decision (P x)} (l : list A) :
  (∀ x, x ∈ l → ¬ P x) → filter P l = [].
Proof.
  induction l as [|a l IH]; [done|]. intros Hnone.
  rewrite filter_cons, decide_False by (apply Hnone; left).
  apply IH. intros x Hx. apply Hnone. by right.
Qed.

Lemma deletable_gone user job_ids (c : list Job.t) :
  filter (deletable user job_ids)
         (deleteMany_in Job._id
            (Job._id <$> filter (deletable user job_ids) c) c) = [].
Proof.
  apply filter_none. intros j [Hnot Hj]%list_elem_of_filter Hdel.
  apply Hnot, list_elem_of_fmap_2. by apply list_elem_of_filter.
Qed.

Lemma delete_nothing user job_ids s :
  filter (deletable user job_ids) (jobs s) = [] →
  snd (route (delete_jobs user (Some job_ids)) s) = s.
Proof.
  intros Hnone. destruct job_ids as [|i ids]; [done|].
  unfold route, delete_jobs, bind, read. by rewrite Hnone.
Qed.

Lemma delete_jobs_reply_found user job_ids s (found : list Job.t) :
  filter (deletable user job_ids) (jobs s) = found →
  fst (route (delete_jobs user (Some job_ids)) s)
  = (if job_ids is [] then
       json 400 (JS.Obj [("error", JS.Str "job_ids array is required")])
     else if found is [] then
       json 404 (JS.Obj [("error", JS.Str "No matching jobs found")])
     else
       json 200
         (JS.Obj [("deleted", JS.Num (Z.of_nat (length (Job._id <$> found))));
                  ("job_ids", JS.Arr (JS.Str <$> (Job._id <$> found)))]),
     None).
Proof.
  intros <-. rewrite delete_jobs_reply. destruct job_ids as [|i ids]; [done|].
  cbv zeta. by destruct (filter _ _).
Qed.

(** X13. Deleting is idempotent: a second DELETE /jobs with the same ids by
    the same subject, admin or not, finds nothing left, answers 404 (400 for
    an empty list, as the first time) and changes no store. *)
Theorem delete_is_idempotent
    (user : req_user) (job_ids : list string) (s : db) :
  let once := snd (route (delete_jobs user (Some job_ids)) s) in
  route (delete_jobs user (Some job_ids)) once
  = ((if job_ids is []
      then json 400 (JS.Obj [("error", JS.Str "job_ids array is required")])
      else json 404 (JS.Obj [("error", JS.Str "No matching jobs found")]),
      None), once).
Proof.
  intros once.
  assert (Hgone : filter (deletable user job_ids) (jobs once) = []).
  { subst once. rewrite delete_jobs_stores. cbn. apply deletable_gone. }
  rewrite (surjective_pairing (route _ once)).
  rewrite (delete_nothing _ _ _ Hgone).
  by rewrite (delete_jobs_reply_found _ _ _ _ Hgone).
Qed.

(** X14. An admin deletes every listed job that exists, whoever owns it: the
    job store loses exactly the jobs whose id is listed, the response names
    them, and their analysis and cleaning records are gone. *)
Theorem admin_deletes_any_job
    (admin : req_user) (job_ids : list string) (s : db) :
  role admin = "admin" →
  let listed_jobs := filter (λ j, Job._id j ∈ job_ids) (jobs s) in
  let answer := route (delete_jobs admin (Some job_ids)) s in
  jobs (snd answer) = filter (λ j, Job._id j ∉ job_ids) (jobs s) ∧
  (listed_jobs ≠ [] →
   fst answer
     = (json 200
          (JS.Obj [("deleted", JS.Num (Z.of_nat (length listed_jobs)));
                   ("job_ids", JS.Arr (JS.Str <$> (Job._id <$> listed_jobs)))]),
        None)) ∧
  (∀ j, j ∈ listed_jobs →
     findOne AnalysisResult.job_id (Job._id j) (analysis_results (snd answer))
       = None ∧
     findOne CleaningResult.job_id (Job._id j) (cleaning_results (snd answer))
       = None).
Proof.
  intros Hadmin listed_jobs answer.
  assert (Hfound : ∀ c : list Job.t,
            filter (deletable admin job_ids) c
            = filter (λ j, Job._id j ∈ job_ids) c).
  { intros c. apply list_filter_iff. intros j. unfold deletable.
    by rewrite decide_True. }
  assert (Hs' : snd answer = _) by apply delete_jobs_stores.
  cbv zeta in Hs'. rewrite Hfound in Hs'. fold listed_jobs in Hs'.
  split; [|split].
  - rewrite Hs'. cbn. unfold deleteMany_in. apply filter_agree.
    intros j Hj. split.
    + intros Hnot Hin. apply Hnot, list_elem_of_fmap_2.
      by apply list_elem_of_filter.
    + intros Hnot (j' & Heq & [Hin _]%list_elem_of_filter)%list_elem_of_fmap.
      apply Hnot. by rewrite Heq.
  - intros Hsome. unfold answer.
    rewrite (delete_jobs_reply_found _ _ _ _ (Hfound (jobs s))).
    fold listed_jobs. rewrite length_fmap.
    destruct job_ids as [|i ids]; [|by destruct listed_jobs].
    destruct listed_jobs as [|j l] eqn:Hl; [done|].
    assert (Hj : j ∈ listed_jobs) by (rewrite Hl; left).
    apply list_elem_of_filter in Hj as [Hj%elem_of_nil _]. done.
  - intros j Hj. rewrite Hs'. cbn.
    split; apply findOne_deleteMany_in; by apply list_elem_of_fmap_2.
Qed.

Lemma admin_deletes_any_job_witness :
  jobs (snd (route (delete_jobs (mkuser "u-root" "admin")
                                (Some ["job-b"; "job-z"])) Sample.store))
  = [Sample.job_a] ∧
  findOne AnalysisResult.job_id "job-b"
    (analysis_results
       (snd (route (delete_jobs (mkuser "u-root" "admin")
                                (Some ["job-b"; "job-z"])) Sample.store)))
  = None.
Proof.
  destruct (admin_deletes_any_job (mkuser "u-root" "admin")
              ["job-b"; "job-z"] Sample.store eq_refl)
    as (Hjobs & _ & Hgone).
  split; [exact Hjobs|].
  refine (proj1 (Hgone Sample.job_b _)). vm_compute. repeat constructor.
Defined.

(** X15. A deleted job is gone for every request: after DELETE /jobs, for
    every id the response names, the job store and the result stores hold
    nothing for it, and every job-scoped endpoint answers any subject, admins
    included, as for a job that never existed, so that no delegation can be
    started for it any more. *)
Theorem deleted_job_is_gone
    (user : req_user) (job_ids : list string) (s : db) (jobId : string) :
  jobId ∈ Job._id <$> filter (deletable user job_ids) (jobs s) →
  let s' := snd (route (delete_jobs user (Some job_ids)) s) in
  Job.findById jobId (jobs s') = None ∧
  findOne AnalysisResult.job_id jobId (analysis_results s') = None ∧
  findOne CleaningResult.job_id jobId (cleaning_results s') = None ∧
  (∀ e anyone,
     ∃ r, route (serve e jobId anyone) s' = ((r, None), s') ∧
          (if e is GET_status
           then r = json 200 (JS.Obj [("status", JS.Str "unknown")])
           else code r = 404%Z)).
Proof.
  intros Hdeleted s'.
  assert (Hs' : s' = _) by apply delete_jobs_stores. cbv zeta in Hs'.
  assert (Hjob : Job.findById jobId (jobs s') = None).
  { rewrite Hs'. cbn. by apply findOne_deleteMany_in. }
  split; [exact Hjob|]. split; [|split].
  - rewrite Hs'. cbn. by apply findOne_deleteMany_in.
  - rewrite Hs'. cbn. by apply findOne_deleteMany_in.
  - intros e anyone. by apply serve_absent.
Qed.

Lemma deleted_job_is_gone_witness :
  Job.findById "job-a"
    (jobs (snd (route (delete_jobs Sample.alice (Some ["job-a"]))
                      Sample.store)))
  = None.
Proof.
  refine (proj1 (deleted_job_is_gone Sample.alice ["job-a"] Sample.store
                   "job-a" _)).
  vm_compute. repeat constructor.
Defined.



(** ** Accounts *)

Lemma findOne_unique {Doc} (key : Doc → string) (c : list Doc) d :
  unique key c → d ∈ c → findOne key (key d) c = Some d.
Proof.
  intros Hc Hd. destruct (findOne key (key d) c) as [d'|] eqn:Hfind.
  - apply findOne_Some in Hfind as [Hd' Hk].
    by rewrite (unique_key_inj key c d' d Hc Hd' Hd Hk).
  - apply findOne_None in Hfind. destruct Hfind.
    by apply list_elem_of_fmap_2.
Qed.

Lemma unique_snoc {Doc} (key : Doc → string) (c : list Doc) d :
  unique key c → findOne key (key d) c = None → unique key (c ++ [d]).
Proof.
  unfold unique. intros Hc Hfresh%findOne_None.
  rewrite fmap_app. apply NoDup_app. split; [done|]. split.
  - intros x Hx ->%list_elem_of_singleton. done.
  - apply NoDup_singleton.
Qed.

Section AccountFacts.
Variable jwt_sign : string → string → string.
Variable bcrypt_compare : string → string → bool.

(** X24. For a login whose email and password are strings, the response
    when no user has the email is the same as the response when the user
    exists and the password does not match the stored hash: status 401 with
    the body [Invalid email or password], no cookie, stores untouched. *)
Theorem string_login_hides_registration
    (email password : string) (s_absent s_wrong : db) (user : User.t) :
  email ≠ "" → password ≠ "" →
  findOne User.email email (users s_absent) = None →
  findOne User.email email (users s_wrong) = Some user →
  bcrypt_compare password (User.password_hash user) = false →
  route (post_login jwt_sign bcrypt_compare (JS.Str email) (JS.Str password))
        s_absent
    = ((json 401 (JS.Obj [("error", JS.Str "Invalid email or password")]),
        None), s_absent) ∧
  route (post_login jwt_sign bcrypt_compare (JS.Str email) (JS.Str password))
        s_wrong
    = ((json 401 (JS.Obj [("error", JS.Str "Invalid email or password")]),
        None), s_wrong).
Proof.
  intros He Hp Habsent Hwrong Hcmp.
  unfold route, post_login, User_findOne_email, bind, read, lift. cbn.
  rewrite !bool_decide_eq_false_2 by done. cbn.
  rewrite Habsent, Hwrong. cbn. by rewrite Hcmp.
Qed.

(** X18. Login and the [auth] middleware agree: with a JWT library whose
    verification returns what was signed, the cookie of a successful login
    opens GET /me, which returns the user that logged in; without a cookie,
    or with a token that does not verify, the route is never entered and the
    answer is 401. *)
Theorem login_then_me
    (jwt_verify : string → option (string * string))
    (email password : string) (u : User.t) (s : db) (forged : string) :
  email ≠ "" → password ≠ "" →
  unique User._id (users s) →
  findOne User.email email (users s) = Some u →
  bcrypt_compare password (User.password_hash u) = true →
  jwt_sign (User._id u) (User.role u) ≠ "" →
  jwt_verify (jwt_sign (User._id u) (User.role u))
    = Some (User._id u, User.role u) →
  jwt_verify forged = None →
  let token := jwt_sign (User._id u) (User.role u) in
  let me := JS.Obj [("user", JS.Obj [("id", JS.Str (User._id u));
                                     ("email", JS.Str (User.email u));
                                     ("role", JS.Str (User.role u))])] in
  route (post_login jwt_sign bcrypt_compare (JS.Str email) (JS.Str password))
        s
    = ((mkres 200 [("Set-Cookie", "token=" +:+ token)] (JsonBody me), None),
       s) ∧
  route (auth jwt_verify (Some token) get_me) s = ((json 200 me, None), s) ∧
  route (auth jwt_verify None get_me) s
    = ((json 401 (JS.Obj [("error", JS.Str "Authentication required")]),
        None), s) ∧
  route (auth jwt_verify (Some forged) get_me) s
    = ((json 401 (JS.Obj [("error",
          JS.Str (if decide (forged = "") then "Authentication required"
                  else "Invalid or expired token"))]), None), s).
Proof.
  intros He Hp Huniq Hfound Hgood Htoken Hverify Hforged token me.
  apply findOne_Some in Hfound as Hu. destruct Hu as [Hu _].
  repeat split.
  - unfold route, post_login, User_findOne_email, bind, read, lift. cbn.
    rewrite !bool_decide_eq_false_2 by done. cbn. rewrite Hfound. cbn.
    by rewrite Hgood.
  - unfold route, auth, given. rewrite decide_False by done.
    fold token in Hverify. rewrite Hverify.
    unfold get_me, bind, read. cbn.
    by rewrite (findOne_unique User._id (users s) u Huniq Hu).
  - unfold route, auth, given. cbn.
    destruct (decide (forged = "")); [done|]. by rewrite Hforged.
Qed.
End AccountFacts.

Lemma string_login_hides_registration_witness :
  route (post_login Sample.jwt_sign Sample.bcrypt_compare
           (JS.Str "alice@example.org") (JS.Str "wrong guess"))
        (mkdb [] [] [] [] [] ∅)
    = ((json 401 (JS.Obj [("error", JS.Str "Invalid email or password")]),
        None), mkdb [] [] [] [] [] ∅) ∧
  route (post_login Sample.jwt_sign Sample.bcrypt_compare
           (JS.Str "alice@example.org") (JS.Str "wrong guess"))
        Sample.store
    = ((json 401 (JS.Obj [("error", JS.Str "Invalid email or password")]),
        None), Sample.store).
Proof.
  apply (string_login_hides_registration Sample.jwt_sign Sample.bcrypt_compare
           "alice@example.org" "wrong guess" (mkdb [] [] [] [] [] ∅)
           Sample.store Sample.user_alice);
    [discriminate | discriminate | reflexivity | reflexivity | reflexivity].
Defined.

Lemma login_then_me_witness :
  route (auth (λ t, if decide (t = "jwt.u-alice.user")
                    then Some ("u-alice", "user") else None)
              (Some "jwt.u-alice.user") get_me) Sample.store
  = ((json 200 (JS.Obj [("user", JS.Obj
        [("id", JS.Str "u-alice"); ("email", JS.Str "alice@example.org");
         ("role", JS.Str "user")])]), None), Sample.store).
Proof.
  destruct (login_then_me Sample.jwt_sign Sample.bcrypt_compare
              (λ t, if decide (t = "jwt.u-alice.user")
                    then Some ("u-alice", "user") else None)
              "alice@example.org" "correct horse" Sample.user_alice
              Sample.store "forged")
    as (_ & Hme & _);
    [discriminate | discriminate
    | apply (bool_decide_unpack _); vm_compute; exact I
    | reflexivity | reflexivity | discriminate | reflexivity | reflexivity |].
  exact Hme.
Defined.

(** ** The job list *)

Lemma find_in_hits {Doc} (key : Doc → string) (ks : list string) k
    (c : list Doc) :
  k ∈ ks → (k ∈ key <$> find_in key ks c ↔ is_Some (findOne key k c)).
Proof.
  intros Hk. unfold find_in. split.
  - intros (d & -> & [_ Hd]%list_elem_of_filter)%list_elem_of_fmap.
    destruct (findOne key (key d) c) eqn:Hfind; [done|].
    apply findOne_None in Hfind. destruct Hfind.
    by apply list_elem_of_fmap_2.
  - intros [d [Hd <-]%findOne_Some]. apply list_elem_of_fmap_2.
    by apply list_elem_of_filter.
Qed.

Section JobListFacts.
Variable created_at : Job.t → JS.value.
Variable newest_first : list Job.t → list Job.t.
Hypothesis newest_first_perm : ∀ l, newest_first l ≡ₚ l.

(** X19. GET /jobs is read-only and lists, for a subject that is not an
    admin, exactly the jobs that subject owns (for an admin: every job), in
    some order; the [has_analysis] and [has_cleaning] flags of a listed job
    say whether the result stores hold a record for it. *)
Theorem job_list_shows_own_jobs (user : req_user) (s : db) :
  ∃ found analysisSet cleaningSet,
    route (get_jobs created_at newest_first user) s
      = ((json 200 (JS.Arr (job_entry created_at analysisSet cleaningSet
                              <$> found)), None), s) ∧
    found ≡ₚ filter (listed user) (jobs s) ∧
    (∀ j, j ∈ found →
       j ∈ jobs s ∧
       (role user = "admin" ∨ Job.user_id j = id user) ∧
       (Job._id j ∈ analysisSet ↔
        is_Some (findOne AnalysisResult.job_id (Job._id j)
                         (analysis_results s))) ∧
       (Job._id j ∈ cleaningSet ↔
        is_Some (findOne CleaningResult.job_id (Job._id j)
                         (cleaning_results s)))) ∧
    (∀ j, j ∈ jobs s →
       role user = "admin" ∨ Job.user_id j = id user → j ∈ found).
Proof.
  eexists (newest_first (filter (listed user) (jobs s))), _, _.
  split; [reflexivity|]. split; [apply newest_first_perm|]. split.
  - intros j Hj. pose proof Hj as Hin.
    rewrite newest_first_perm in Hin.
    apply list_elem_of_filter in Hin as [Hlisted Hin].
    split; [done|]. split.
    + unfold listed in Hlisted.
      destruct (decide (role user = "admin")); auto.
    + split; apply find_in_hits; by apply list_elem_of_fmap_2.
  - intros j Hj Hmine. rewrite newest_first_perm.
    apply list_elem_of_filter. split; [|done]. unfold listed.
    destruct (decide (role user = "admin")); [done|].
    by destruct Hmine.
Qed.
End JobListFacts.

Lemma job_list_shows_own_jobs_witness :
  ∃ found analysisSet cleaningSet,
    route (get_jobs (λ _, JS.Null) reverse Sample.alice) Sample.store
      = ((json 200 (JS.Arr (job_entry (λ _, JS.Null) analysisSet cleaningSet
                              <$> found)), None), Sample.store) ∧
    found ≡ₚ [Sample.job_a].
Proof.
  destruct (job_list_shows_own_jobs (λ _, JS.Null) reverse
              (λ l, reverse_Permutation l) Sample.alice Sample.store)
    as (found & A & C & Hrun & Hperm & _).
  exists found, A, C. split; [exact Hrun | exact Hperm].
Defined.

(** ** Requests and uploads: what they write *)




(** X21. An upload touches no existing job and no result or user.  Without
    a file it answers 400 and changes nothing.  With a file, the file is on
    disk afterwards in every case, also when the job store turns the id down
    and no job refers to it; and when the job is created the log gains
    exactly JOB_CREATED and FILE_UPLOADED for the new id, the second with the
    size and the mode of the job. *)
Theorem upload_adds_one_job
    (jobId : string) (user : req_user) (file : option uploaded_file) (s : db) :
  let answer := route (post_upload jobId user file) s in
  let s' := snd answer in
  analysis_results s' = analysis_results s ∧
  cleaning_results s' = cleaning_results s ∧
  users s' = users s ∧
  (∀ other, other ≠ jobId →
     Job.findById other (jobs s') = Job.findById other (jobs s)) ∧
  match file with
  | None => code (fst (fst answer)) = 400%Z ∧ s' = s
  | Some f =>
      disk s' = disk s ∪ {[path f]} ∧
      match Job.findById jobId (jobs s) with
      | Some job =>
          Job.findById jobId (jobs s') = Some job ∧
          audit_log s' = audit_log s
      | None =>
          ∃ job,
            jobs s' = jobs s ++ [job] ∧
            audit_log s'
              = audit_log s ++
                [AuditEvent.mk jobId "JOB_CREATED"
                   (JS.Obj [("user_id", JS.Str (id user))]);
                 AuditEvent.mk jobId "FILE_UPLOADED"
                   (JS.Obj [("fileName", JS.Str (originalname f));
                            ("size", JS.Num (size f));
                            ("mode", JS.Str (Job.mode job))])] ∧
            Job.file_path job = JS.Str (path f) ∧
            Job.file_name job = originalname f
      end
  end.
Proof.
  intros answer s'. subst s' answer.
  destruct file as [f|]; [|done].
  unfold route, post_upload, bind, multer_single, write, Job_create,
    Job_findById, read. cbn.
  destruct (Job.findById jobId (jobs s)) eqn:Hj; cbn.
  - by rewrite Hj.
  - repeat split.
    + intros other Hne. unfold Job.findById.
      destruct (findOne Job._id other (jobs s)) eqn:Ho.
      * by apply findOne_app_hit.
      * rewrite findOne_app_miss by done.
        rewrite findOne_cons, decide_False by done. done.
    + eexists. repeat split. by rewrite <- app_assoc.
Qed.

Lemma upload_adds_one_job_witness :
  Job.findById "job-a"
    (jobs (snd (route (post_upload "job-c" Sample.alice
                         (Some (mkfile "c.csv" "/uploads/c.csv" 10)))
                      Sample.store)))
  = Some Sample.job_a.
Proof.
  destruct (upload_adds_one_job "job-c" Sample.alice
              (Some (mkfile "c.csv" "/uploads/c.csv" 10)) Sample.store)
    as (_ & _ & _ & Hframe & _).
  apply Hframe. discriminate.
Defined.

(** ** A cleaning that fails after the worker answered *)


